(** * build_html.py: the page renderer of dunia-hamar

    A shallow embedding of [src/python/build_html.py] and the properties of
    its text pipeline: content injection, name substitution, key
    substitution, the check for remaining keys and the two regular-expression
    passes that resolve the [{If"name"body}] tags.

    A string is the list of its code points.  [str.replace], [re.search] and
    [re.sub] are functions on such lists, the patterns of the script being
    sequences of character classes taken once, starred or plussed.  The
    files and the printed lines are a state that the loop body passes on;
    [json.load] and the listing of the templates folder are parameters. *)

From Stdlib Require Import String Ascii.
From Stdlib Require Import List NArith Arith Bool Lia.
Import ListNotations.

(** ** Python strings *)

Module Py.

(** A Python [str] is a sequence of Unicode code points. *)
Definition char := N.
Definition str := list char.

(** The code points of a string literal of the script. *)
Definition lit (s : string) : str := map N_of_ascii (list_ascii_of_string s).

(** The double quote, written apart since it cannot stand in a literal. *)
Definition dq : char := 34%N.

(** [s.startswith(prefix)] *)
Fixpoint startswith (s prefix : str) {struct prefix} : bool :=
  match prefix, s with
  | [], _ => true
  | p :: prefix', c :: s' => N.eqb c p && startswith s' prefix'
  | _ :: _, [] => false
  end.

(** The scan of [s.replace(old, new)] for a non-empty [old]: left to right,
    at every position where [old] starts, [new] is emitted and the scan
    resumes behind the occurrence ([skip] counts the characters of the
    occurrence still to pass over); any other character is copied. *)
Fixpoint replace_from (old new : str) (skip : nat) (s : str) : str :=
  match s with
  | [] => []
  | c :: s' =>
      match skip with
      | S k => replace_from old new k s'
      | O =>
          if startswith s old
          then new ++ replace_from old new (length old - 1) s'
          else c :: replace_from old new 0 s'
      end
  end.

(** [s.replace(old, new)], all occurrences.  With an empty [old] Python puts
    [new] before every character and at the end. *)
Definition replace (s old new : str) : str :=
  match old with
  | [] => new ++ flat_map (fun c => c :: new) s
  | _ :: _ => replace_from old new 0 s
  end.

End Py.

(** ** The fragment of Python's [re] that the script uses *)

Module Re.
Import Py.

(** How often an atom is taken: once, [*] or [+] (both greedy). *)
Inductive quant := One | Star | Plus.

(** An atom is a set of characters with its quantifier; [captured] marks the
    atom that group 1 encloses. *)
Record atom := Atom {
  accepts : char -> bool;
  times : quant;
  captured : bool
}.

(** A pattern is a sequence of atoms. *)
Definition pattern := list atom.

(** A literal character of a pattern. *)
Definition chr (c : char) : atom := Atom (N.eqb c) One false.

(** A run of literal characters. *)
Definition chars (s : str) : pattern := map chr s.

(** [.]: any character but the newline (no DOTALL flag is given). *)
Definition dot : atom := Atom (fun c => negb (N.eqb c 10)) One false.

(** A greedy repetition: take characters of [set] as long as possible, then
    try the continuation [k]; on failure give one character back and try
    again.  The result holds the run taken and what [k] returned. *)
Fixpoint greedy {R : Type} (set : char -> bool) (k : str -> option R)
    (s : str) : option (str * R) :=
  match s with
  | c :: s' =>
      if set c then
        match greedy set k s' with
        | Some (run, r) => Some (c :: run, r)
        | None => option_map (pair []) (k s)
        end
      else option_map (pair []) (k s)
  | [] => option_map (pair []) (k s)
  end.

(** The backtracking matcher anchored at the start of [s]: the first match in
    the priority order of the engine, as the text of group 1 and the text
    behind the match. *)
Fixpoint match_here (p : pattern) (s : str) : option (str * str) :=
  match p with
  | [] => Some ([], s)
  | a :: p' =>
      match times a with
      | One =>
          match s with
          | c :: s' =>
              if accepts a c then
                match match_here p' s' with
                | Some (g, rest) => Some (if captured a then [c] else g, rest)
                | None => None
                end
              else None
          | [] => None
          end
      | Star =>
          match greedy (accepts a) (match_here p') s with
          | Some (run, (g, rest)) => Some (if captured a then run else g, rest)
          | None => None
          end
      | Plus =>
          match s with
          | c :: s' =>
              if accepts a c then
                match greedy (accepts a) (match_here p') s' with
                | Some (run, (g, rest)) =>
                    Some (if captured a then c :: run else g, rest)
                | None => None
                end
              else None
          | [] => None
          end
      end
  end.

(** [re.search(p, s)]: the leftmost position with a match, as the text before
    the match, group 1 and the text behind the match. *)
Fixpoint search (p : pattern) (s : str) : option (str * str * str) :=
  match match_here p s with
  | Some (g, rest) => Some ([], g, rest)
  | None =>
      match s with
      | [] => None
      | c :: s' =>
          match search p s' with
          | Some (before, g, rest) => Some (c :: before, g, rest)
          | None => None
          end
      end
  end.

(** The scan of [re.sub(p, repl, s)]: the matches are taken left to right
    without overlap, each replaced by [repl] of its group 1; text outside the
    matches is copied.  An empty match is replaced and the scan moves on by
    one character. *)
Fixpoint sub_from (p : pattern) (repl : str -> str) (skip : nat) (s : str)
    : str :=
  match s with
  | [] =>
      match match_here p [] with
      | Some (g, _) => repl g
      | None => []
      end
  | c :: s' =>
      match skip with
      | S k => sub_from p repl k s'
      | O =>
          match match_here p s with
          | Some (g, rest) =>
              match length s - length rest with
              | O => repl g ++ c :: sub_from p repl 0 s'
              | S k => repl g ++ sub_from p repl k s'
              end
          | None => c :: sub_from p repl 0 s'
          end
      end
  end.

Definition sub (p : pattern) (repl : str -> str) (s : str) : str :=
  sub_from p repl 0 s.

End Re.

(** ** The script *)

Module BuildHtml.
Import Py Re.

Definition LANGUAGES : list str := [lit "en"; lit "es"; lit "jp"; lit "pd"].
Definition DEFAULT_LANGUAGE : str := lit "pd".

(** A language dictionary as [json.load] returns it: a [dict], read through
    [lang.items()], which yields the pairs in insertion order. *)
Definition dict := list (str * str).

(** What the loop body can raise.  [FileNotFoundError] is that of a file
    opened for reading that is not there; the model does not tell it from
    the other ways in which reading a file fails (a directory of this name,
    no permission, bytes that are not utf8), which raise at the same place
    and change as little.  [LangFileError] stands for a language file that
    [json.load] rejects or that holds something else than an object of
    strings.  [OSError] is what [open(path, 'w')] raises when it refuses
    the path (the folder is missing, the path is a directory, the file may
    not be written), [UnicodeEncodeError] what writing a text raises that
    utf8 cannot encode.

    [OutsideFragment] is no exception of the script: it marks a page name
    whose characters make the first [re.sub] pattern something else than
    the fragment of [Re] (a quantifier, an anchor, a class, a group, ...).
    The script compiles most of these patterns and goes on, and raises
    [re.error] on the others; the model follows neither and stops there.
    Where a statement tells how a round or a run ends, it is made for page
    names of the fragment, around which this outcome does not occur. *)
Inductive exn :=
| KeyError (msg : str)
| FileNotFoundError (path : str)
| LangFileError
| OutsideFragment
| OSError (path : str)
| UnicodeEncodeError (path : str).

Inductive result (A : Type) :=
| Ok (a : A)
| Raise (e : exn).
Arguments Ok {A} a.
Arguments Raise {A} e.

(** *** The text pipeline of the loop body *)

(** The opening and the closing brace. *)
Definition lbrace : char := 123%N.
Definition rbrace : char := 125%N.

(** [f'{{{key}}}'] *)
Definition token (key : str) : str := lit "{" ++ key ++ lit "}".

(** [page = base.replace('{Content}', page_file.read())] *)
Definition insert_content (base content : str) : str :=
  replace base (lit "{Content}") content.

(** [page = page.replace(f'{{.name}}', filename)] *)
Definition replace_special_key (page filename : str) : str :=
  replace page (lit "{.name}") filename.

(** [for key, value in lang.items(): page = page.replace(f'{{{key}}}', value)] *)
Definition replace_basic_keys (page : str) (lang : dict) : str :=
  fold_left (fun page kv => replace page (token (fst kv)) (snd kv)) lang page.

(** The class [[a-zA-Z0-9-.]]: after the range [0-9] the hyphen and the dot
    are literal members. *)
Definition key_char (c : char) : bool :=
  ((97 <=? c) && (c <=? 122) || (65 <=? c) && (c <=? 90)
   || (48 <=? c) && (c <=? 57) || (c =? 45) || (c =? 46))%N.

(** [r'{([a-zA-Z0-9-.]+)}'] *)
Definition remaining_keys_re : pattern :=
  chars (lit "{") ++ [Atom key_char Plus true] ++ chars (lit "}").

(** [remaining_keys = re.search(r'{([a-zA-Z0-9-.]+)}', page)] *)
Definition remaining_keys (page : str) : option (str * str * str) :=
  search remaining_keys_re page.

(** [f"no jana cabe '{remaining_keys.group(1)}'!"] *)
Definition no_jana_cabe (key : str) : str :=
  lit "no jana cabe '" ++ key ++ lit "'!".

(** The characters with a meaning of their own in a pattern. *)
Definition regex_special (c : char) : bool :=
  existsb (N.eqb c) (lit ".^$*+?{}[]\|()").

(** The page name goes into the pattern as it is, without [re.escape]: a dot
    of the name is the wildcard, a character that is not special stands for
    itself, and any other special character leaves the fragment: [None]
    says that the pattern is not modelled, not that [re] rejects it. *)
Definition name_atom (c : char) : option atom :=
  if (c =? 46)%N then Some dot
  else if regex_special c then None
  else Some (chr c).

Fixpoint name_re (filename : str) : option pattern :=
  match filename with
  | [] => Some []
  | c :: rest =>
      match name_atom c, name_re rest with
      | Some a, Some p => Some (a :: p)
      | _, _ => None
      end
  end.

(** The class [[^}]] of every character but the closing brace, and the
    class of every character but the double quote. *)
Definition not_rbrace (c : char) : bool := negb (c =? rbrace)%N.
Definition not_dq (c : char) : bool := negb (c =? dq)%N.

(** The pattern of the first [re.sub], an f-string: the opener [{If],
    the page name between double quotes, group 1 around a starred class of
    every character but the closing brace, and the closing brace. *)
Definition keep_re (filename : str) : option pattern :=
  match name_re filename with
  | Some name =>
      Some (chars (lit "{If") ++ [chr dq] ++ name ++ [chr dq]
            ++ [Atom not_rbrace Star true] ++ chars (lit "}"))
  | None => None
  end.

(** The pattern of the second [re.sub]: the opener [{If], between double
    quotes a starred class of every character but the double quote, then a
    starred class of every character but the closing brace, and the closing
    brace. *)
Definition strip_re : pattern :=
  chars (lit "{If") ++ [chr dq]
  ++ [Atom not_dq Star false] ++ [chr dq]
  ++ [Atom not_rbrace Star false] ++ chars (lit "}").

(** The two [re.sub] calls: the first keeps the body (['\\1']) of the tags of
    this page, the second deletes every tag left. *)
Definition resolve_ifs (filename page : str) : result str :=
  match keep_re filename with
  | Some keep =>
      let page := sub keep (fun body => body) page in
      Ok (sub strip_re (fun _ => []) page)
  | None => Raise OutsideFragment
  end.

(** The text before the check: content, page name and keys put in. *)
Definition substituted (base content filename : str) (lang : dict) : str :=
  replace_basic_keys
    (replace_special_key (insert_content base content) filename) lang.

(** From the template texts and the dictionary to the page that is saved. *)
Definition render (base content filename : str) (lang : dict) : result str :=
  let page := substituted base content filename lang in
  match remaining_keys page with
  | Some (_, key, _) => Raise (KeyError (no_jana_cabe key))
  | None => resolve_ifs filename page
  end.

(** *** The loop body with its files *)

(** The files the script sees, what it has printed, and the paths that
    cannot be opened for writing.

    [files w path] is the text of the file as the text mode of Python has
    it: [Some text] when [open(path, 'r', encoding='utf8').read()] returns
    [text], decoded and with its line ends translated, [None] when reading
    raises: there is no such file, or it cannot be opened or decoded.  For
    a file that the script has written it is the text given to [write]; the
    script reads none of the files it writes.

    [refuses w path] says that [open(path, 'w')] raises: the folder is
    missing, the path is a directory, or writing is not allowed.  The script
    makes no folder and changes no permission, so a run leaves it as it
    is. *)
Record world := World {
  files : str -> option str;
  stdout : list str;
  refuses : str -> bool
}.

(** [a == b] on strings *)
Fixpoint str_eqb (a b : str) : bool :=
  match a, b with
  | [], [] => true
  | x :: a', y :: b' => N.eqb x y && str_eqb a' b'
  | _, _ => false
  end.

(** [s.endswith(suffix)] *)
Definition endswith (s suffix : str) : bool :=
  startswith (rev s) (rev suffix).

(** [open(path, 'r', encoding='utf8').read()]: the text of the file as the
    text mode returns it, which is what [files] holds. *)
Definition read (path : str) (w : world) : result str :=
  match files w path with
  | Some text => Ok text
  | None => Raise (FileNotFoundError path)
  end.

(** The world in which the file [path] holds [text]. *)
Definition put (path text : str) (w : world) : world :=
  World (fun q => if str_eqb q path then Some text else files w q)
        (stdout w) (refuses w).

(** The texts that utf8 encodes: those without a surrogate code point
    (D800 to DFFF), which a dictionary or a page name can hold and a decoded
    file cannot. *)
Definition encodes (text : str) : bool :=
  forallb (fun c => negb ((55296 <=? c) && (c <=? 57343))%N) text.

(** [with open(path, 'w', encoding='utf8') as f: f.write(text)].  Opening
    raises on a path that is refused, and leaves the files as they are.
    Once open, the file is empty; [f.write] encodes the whole text before
    it writes any of it, so a text that cannot be encoded leaves the file
    empty.  The device is taken to hold what is written. *)
Definition write (path text : str) (w : world) : result unit * world :=
  if refuses w path then (Raise (OSError path), w)
  else if encodes text then (Ok tt, put path text w)
  else (Raise (UnicodeEncodeError path), put path [] w).

Definition print (line : str) (w : world) : world :=
  World (files w) (stdout w ++ [line]) (refuses w).

Definition template_path (filename : str) : str :=
  lit "../../res/templates/" ++ filename ++ lit ".html".
Definition lang_path (lang_code : str) : str :=
  lit "../../res/tarje/" ++ lang_code ++ lit ".json".
Definition out_path (lang_code filename : str) : str :=
  lit "../../" ++ lang_code ++ lit "/" ++ filename ++ lit ".html".
Definition root_path (filename : str) : str :=
  lit "../../" ++ filename ++ lit ".html".

(** The last lines of the loop body: the page goes to the folder of the
    language and, for the default language, to the root as well. *)
Definition save (lang_code filename page : str) (w : world)
    : result unit * world :=
  match write (out_path lang_code filename) page w with
  | (Raise e, w) => (Raise e, w)
  | (Ok _, w) =>
      if str_eqb lang_code DEFAULT_LANGUAGE
      then write (root_path filename) page w
      else (Ok tt, w)
  end.

Section LoopBody.

(** [json.load] on the text of a language file, with the pairs of the
    object in the order of [lang.items()]; [None] when the text is not a
    JSON object of strings. *)
Variable json_load : str -> option dict.

(** One round of [for lang_code in LANGUAGES], for the page [filename]. *)
Definition build_page (base filename lang_code : str) (w0 : world)
    : result unit * world :=
  let w := print (lit "  " ++ lang_code) w0 in
  match read (template_path filename) w with
  | Raise e => (Raise e, w)
  | Ok content =>
      match read (lang_path lang_code) w with
      | Raise e => (Raise e, w)
      | Ok text =>
          match json_load text with
          | None => (Raise LangFileError, w)
          | Some lang =>
              match render base content filename lang with
              | Raise e => (Raise e, w)
              | Ok page => save lang_code filename page w
              end
          end
      end
  end.

(** The rounds of [for lang_code in LANGUAGES]; an exception ends the
    script. *)
Fixpoint build_languages (codes : list str) (base filename : str) (w : world)
    : result unit * world :=
  match codes with
  | [] => (Ok tt, w)
  | lang_code :: rest =>
      match build_page base filename lang_code w with
      | (Ok _, w') => build_languages rest base filename w'
      | (Raise e, w') => (Raise e, w')
      end
  end.

(** The page name of an entry of the templates folder, [filename[:-5]];
    [None] for the entries that the loop passes over. *)
Definition page_name (entry : str) : option str :=
  if str_eqb entry (lit "base.html") || negb (endswith entry (lit ".html"))
  then None
  else Some (firstn (length entry - 5) entry).

(** One round of [for filename in os.listdir(...)]. *)
Definition build_template (base entry : str) (w : world)
    : result unit * world :=
  match page_name entry with
  | None => (Ok tt, w)
  | Some filename =>
      build_languages LANGUAGES base filename (print filename w)
  end.

Fixpoint build_templates (entries : list str) (base : str) (w : world)
    : result unit * world :=
  match entries with
  | [] => (Ok tt, w)
  | entry :: rest =>
      match build_template base entry w with
      | (Ok _, w') => build_templates rest base w'
      | (Raise e, w') => (Raise e, w')
      end
  end.

(** The script, [listing] being what [os.listdir] returns. *)
Definition main (listing : list str) (w : world) : result unit * world :=
  match read (lit "../../res/templates/base.html") w with
  | Raise e => (Raise e, w)
  | Ok base =>
      match build_templates listing base w with
      | (Ok _, w') => (Ok tt, print (lit "fini!") w')
      | (Raise e, w') => (Raise e, w')
      end
  end.

End LoopBody.

(** *** Texts made of plain stretches and well-formed tags *)

(** [c not in s] *)
Definition lacks (c : char) (s : str) : bool :=
  forallb (fun x => negb (x =? c)%N) s.

(** [old in s]: [old] starts at some position of [s]. *)
Fixpoint occurs (old s : str) : bool :=
  startswith s old ||
  match s with
  | [] => false
  | _ :: s' => occurs old s'
  end.

(** A key as the check for remaining keys reads it: one character or more
    of the class. *)
Definition is_key (key : str) : bool :=
  match key with
  | [] => false
  | _ :: _ => forallb key_char key
  end.

(** The tag with this name and this body: the opener [{If], the name between
    double quotes, the body, the closing brace. *)
Definition if_tag (name body : str) : str :=
  lit "{If" ++ [dq] ++ name ++ [dq] ++ body ++ lit "}".

Inductive piece :=
| Plain (text : str)
| Tag (name body : str).

Definition piece_text (p : piece) : str :=
  match p with
  | Plain text => text
  | Tag name body => if_tag name body
  end.

Definition flatten (ps : list piece) : str := flat_map piece_text ps.

(** A well-formed tag: the name has no double quote and no brace, the body
    no brace. *)
Definition well_formed_tag (name body : str) : bool :=
  lacks dq name && lacks lbrace name && lacks rbrace name
  && lacks lbrace body && lacks rbrace body.

(** A text whose only opening braces are those of well-formed tags: plain
    text has none. *)
Definition only_tags_piece (p : piece) : bool :=
  match p with
  | Plain text => lacks lbrace text
  | Tag name body => well_formed_tag name body
  end.

Definition only_tags (ps : list piece) : bool := forallb only_tags_piece ps.

(** Plain text may hold braces of its own, those of a style sheet say, as
    long as none looks like the start of a tag: every opening brace is
    followed, in the same stretch, by a character other than [I]. *)
Fixpoint calm (s : str) : bool :=
  match s with
  | [] => true
  | c :: s' =>
      (if (c =? lbrace)%N
       then match s' with
            | x :: _ => negb (x =? 73)%N
            | [] => false
            end
       else true)
      && calm s'
  end.

Definition well_formed_piece (p : piece) : bool :=
  match p with
  | Plain text => calm text
  | Tag name body => well_formed_tag name body
  end.

Definition well_formed (ps : list piece) : bool := forallb well_formed_piece ps.

(** What the tags of the page [filename] come to when names are compared as
    strings: the body of a tag of this page, nothing for any other tag. *)
Definition resolved_piece (filename : str) (p : piece) : str :=
  match p with
  | Plain text => text
  | Tag name body => if str_eqb name filename then body else []
  end.

Definition resolved (filename : str) (ps : list piece) : str :=
  flat_map (resolved_piece filename) ps.

(** What stands behind an opening brace of a tag: [If], the name between
    double quotes, and the rest. *)
Definition opens_tag (s : str) : Prop :=
  exists name rest,
    s = lit "If" ++ [dq] ++ name ++ [dq] ++ rest
    /\ lacks dq name = true /\ lacks lbrace name = true
    /\ lacks rbrace name = true.

(** Every opening brace of the text opens a tag. *)
Fixpoint openers (s : str) : Prop :=
  match s with
  | [] => True
  | c :: s' => (c = lbrace -> opens_tag s') /\ openers s'
  end.

(** No closing brace stands behind an opening one: no pattern that starts
    with [{] and ends with [}] matches anywhere in such a text. *)
Definition settled (s : str) : Prop :=
  exists a b, s = a ++ b /\ lacks lbrace a = true /\ lacks rbrace b = true.

(** The page names that the fragment covers: every character is the dot or
    is not special. *)
Definition in_fragment (filename : str) : bool :=
  forallb (fun c => (c =? 46)%N || negb (regex_special c)) filename.

(** The page names that stand for themselves in a pattern: no character is
    special. *)
Definition literal_name (filename : str) : bool :=
  forallb (fun c => negb (regex_special c)) filename.

(** The token of the page name. *)
Definition name_token : str := lit "{.name}".

(** The page names that can lie over the token [{.name}]: the name holds the
    token, or is a stretch of it (the empty name is one), or ends with a
    beginning of it, or begins with an end of it.  For a name without
    braces this says that the name is a stretch of [.name]. *)
Definition meets_name_token (filename : str) : bool :=
  occurs name_token filename
  || occurs filename name_token
  || existsb (fun k => endswith filename (firstn k name_token)
                       || startswith filename (skipn k name_token))
       [1; 2; 3; 4; 5; 6].

(** The end-to-end page of the specification. *)
Definition end_to_end_base : str := lit "<html>{Content}</html>".
Definition end_to_end_content : str :=
  lit "<p>{greeting}, {.name}!</p>"
  ++ if_tag (lit "index") (lit "<b>Home</b>")
  ++ if_tag (lit "about") (lit "<b>About</b>").

(** A stand-in for [json.load] that reads one language file as the
    dictionary of the specification. *)
Definition end_to_end_json (text : str) : option dict :=
  if str_eqb text (lit "greeting: Hello")
  then Some [(lit "greeting", lit "Hello")]
  else None.

(** A text in which no opening brace is followed by a character of keys:
    the braces of a style sheet or of a script, with a space or a line break
    behind them. *)
Fixpoint quiet (s : str) : bool :=
  match s with
  | [] => true
  | c :: s' =>
      (if (c =? lbrace)%N
       then match s' with
            | x :: _ => negb (key_char x)
            | [] => true
            end
       else true)
      && quiet s'
  end.

(** A text in which every opening brace is followed by a character that is
    no character of keys, or by the rest of the opener of a tag. *)
Fixpoint tame (s : str) : bool :=
  match s with
  | [] => true
  | c :: s' =>
      (if (c =? lbrace)%N
       then match s' with
            | x :: _ => negb (key_char x) || startswith s' (lit "If" ++ [dq])
            | [] => true
            end
       else true)
      && tame s'
  end.

(** The pieces of a page as it stands before the check: well-formed tags,
    and plain text whose opening braces have a character behind them that
    is no character of keys. *)
Definition page_piece (p : piece) : bool :=
  match p with
  | Plain text => quiet text && calm text
  | Tag name body => well_formed_tag name body
  end.

(** A small site: the base, the template of the end-to-end page and a
    language file for every code, which [end_to_end_json] reads. *)
Definition site_world : world :=
  World (fun path =>
           if str_eqb path (lit "../../res/templates/base.html")
           then Some end_to_end_base
           else if str_eqb path (template_path (lit "index"))
                then Some end_to_end_content
                else if startswith path (lit "../../res/tarje/")
                     then Some (lit "greeting: Hello")
                     else None)
        [] (fun _ => false).

(** *** The files of a build *)

Definition slash : char := 47%N.

(** The paths under [../../res/]: the base, the templates and the language
    files are there. *)
Definition source_path (path : str) : bool :=
  startswith path (lit "../../res/").

(** Two worlds with the same files under [../../res/]. *)
Definition agree_sources (w1 w2 : world) : Prop :=
  forall path, source_path path = true -> files w1 path = files w2 path.

(** Two worlds that refuse the same paths. *)
Definition agree_outputs (w1 w2 : world) : Prop :=
  forall path, refuses w1 path = refuses w2 path.

(** Two runs, from [w1] to [u1] and from [w2] to [u2], that have written the
    same: a file is as it was in both, or it is the same in both. *)
Definition same_writes (w1 w2 u1 u2 : world) : Prop :=
  forall path,
    (files u1 path = files w1 path /\ files u2 path = files w2 path)
    \/ files u1 path = files u2 path.

(** Two runs, from [u1] and from [u2], that end the same way, have written
    the same and have printed the same lines. *)
Definition run_alike (w1 w2 u1 u2 : world) (r1 r2 : result unit * world)
    : Prop :=
  fst r1 = fst r2
  /\ same_writes w1 w2 (snd r1) (snd r2)
  /\ exists lines,
       stdout (snd r1) = stdout u1 ++ lines
       /\ stdout (snd r2) = stdout u2 ++ lines.

(** What one round of the language loop has in hand when it comes to
    writing: the page, or what was raised on the way. *)
Definition page_outcome (json_load : str -> option dict)
    (base filename lang_code : str) (w : world) : result str :=
  match files w (template_path filename) with
  | None => Raise (FileNotFoundError (template_path filename))
  | Some content =>
      match files w (lang_path lang_code) with
      | None => Raise (FileNotFoundError (lang_path lang_code))
      | Some text =>
          match json_load text with
          | None => Raise LangFileError
          | Some lang => render base content filename lang
          end
      end
  end.


(** The page names of a listing, in its order. *)
Definition page_names (listing : list str) : list str :=
  flat_map (fun entry => match page_name entry with
                         | Some filename => [filename]
                         | None => []
                         end) listing.

(** The lines that a build without exception prints for these pages. *)
Definition progress (filenames : list str) : list str :=
  flat_map (fun filename =>
              filename :: map (fun lang_code => lit "  " ++ lang_code) LANGUAGES)
           filenames.

End BuildHtml.

Import Py Re BuildHtml.

(** * Facts about Python strings *)

Section PyFacts.

Lemma startswith_app (old r : str) : startswith (old ++ r) old = true.
Proof.
  induction old as [|o old IH]; simpl; [reflexivity|].
  now rewrite N.eqb_refl, IH.
Qed.

Lemma startswith_inv (old : str) :
  forall s, startswith s old = true -> exists r, s = old ++ r.
Proof.
  induction old as [|o old IH]; intros s H.
  - now exists s.
  - destruct s as [|c s]; simpl in H; [discriminate|].
    apply andb_prop in H as [Hc Hs]. apply N.eqb_eq in Hc; subst c.
    destruct (IH _ Hs) as [r ->]. now exists r.
Qed.

Lemma replace_from_skip (old new m r : str) :
  replace_from old new (length m) (m ++ r) = replace_from old new 0 r.
Proof.
  induction m as [|c m IH]; simpl; [|exact IH].
  destruct r; reflexivity.
Qed.

(** The scan at an occurrence: the new text, then the scan behind it. *)
Lemma replace_here (o : char) (old new r : str) :
  replace ((o :: old) ++ r) (o :: old) new = new ++ replace r (o :: old) new.
Proof.
  unfold replace. change ((o :: old) ++ r) with (o :: (old ++ r)).
  cbn [replace_from].
  change (o :: old ++ r) with ((o :: old) ++ r).
  rewrite startswith_app. f_equal.
  cbn [length]. rewrite Nat.sub_succ, Nat.sub_0_r.
  apply replace_from_skip.
Qed.

(** The scan elsewhere: the character is copied. *)
Lemma replace_copy (o c : char) (old new s : str) :
  startswith (c :: s) (o :: old) = false ->
  replace (c :: s) (o :: old) new = c :: replace s (o :: old) new.
Proof.
  intros H. unfold replace. cbn [replace_from]. now rewrite H.
Qed.

Lemma replace_nil (o : char) (old new : str) : replace [] (o :: old) new = [].
Proof. reflexivity. Qed.

Lemma occurs_spec (old : str) :
  forall s, occurs old s = true <-> exists a b, s = a ++ old ++ b.
Proof.
  induction s as [|c s IH].
  - simpl. rewrite orb_false_r. split.
    + intros H. destruct (startswith_inv _ _ H) as [r Hr]. now exists [], r.
    + intros (a & b & H). destruct a; [|discriminate].
      simpl in H. rewrite H. apply startswith_app.
  - cbn [occurs]. rewrite orb_true_iff, IH. split.
    + intros [H | (a & b & ->)].
      * destruct (startswith_inv _ _ H) as [r Hr]. now exists [], r.
      * now exists (c :: a), b.
    + intros (a & b & H). destruct a as [|x a].
      * left. simpl in H. rewrite H. apply startswith_app.
      * right. injection H as _ ->. now exists a, b.
Qed.

Lemma occurs_false_tail (old : str) (c : char) (s : str) :
  occurs old (c :: s) = false ->
  startswith (c :: s) old = false /\ occurs old s = false.
Proof. cbn [occurs]. intros H. now apply orb_false_elim in H. Qed.

(** A text without an occurrence is left as it is. *)
Lemma replace_absent (o : char) (old new : str) :
  forall s, occurs (o :: old) s = false -> replace s (o :: old) new = s.
Proof.
  induction s as [|c s IH]; intros H; [reflexivity|].
  apply occurs_false_tail in H as [H1 H2].
  rewrite replace_copy by exact H1. now rewrite IH.
Qed.

Lemma startswith_shorten (p : str) :
  forall x y, startswith (x ++ y) p = true -> length p <= length x ->
              startswith x p = true.
Proof.
  induction p as [|a p IH]; intros x y H L; [reflexivity|].
  destruct x as [|c x]; simpl in L; [lia|].
  simpl in H |- *. apply andb_prop in H as [-> H]. simpl.
  apply (IH x y H). lia.
Qed.

(** At the first occurrence: the text before it is copied, the new text is
    put in as it is, and the scan goes on behind the occurrence. *)
Lemma replace_first (o : char) (old new suf : str) :
  forall pre,
    occurs (o :: old) (pre ++ removelast (o :: old)) = false ->
    replace (pre ++ (o :: old) ++ suf) (o :: old) new
    = pre ++ new ++ replace suf (o :: old) new.
Proof.
  induction pre as [|c pre IH]; intros H.
  - apply replace_here.
  - change ((c :: pre) ++ (o :: old) ++ suf)
      with (c :: (pre ++ (o :: old) ++ suf)).
    change ((c :: pre) ++ removelast (o :: old))
      with (c :: (pre ++ removelast (o :: old))) in H.
    apply occurs_false_tail in H as [H1 H2].
    rewrite replace_copy.
    + simpl. f_equal. apply IH, H2.
    + destruct (startswith (c :: pre ++ (o :: old) ++ suf) (o :: old)) eqn:E;
        [|reflexivity].
      rewrite <- H1. symmetry.
      assert (Hl : (o :: old) = removelast (o :: old) ++ [last (o :: old) o])
        by (apply app_removelast_last; discriminate).
      remember (removelast (o :: old)) as k eqn:Ek.
      remember (last (o :: old) o) as l eqn:El.
      apply startswith_shorten with (y := l :: suf).
      * rewrite <- E. f_equal. rewrite Hl. cbn [app]. f_equal.
        now rewrite <- !app_assoc.
      * rewrite Hl. cbn [length]. rewrite !length_app. cbn [length]. lia.
Qed.

(** A prefix without an opening brace cannot reach over one. *)
Lemma startswith_before_brace (r : str) :
  forall x y, lacks lbrace r = true ->
              startswith (x ++ lbrace :: y) r = true -> startswith x r = true.
Proof.
  induction r as [|a r IH]; intros x y L H; [reflexivity|].
  cbn [lacks forallb] in L. apply andb_prop in L as [La L].
  destruct x as [|c x]; cbn [startswith app] in H |- *.
  - apply andb_prop in H as [Hc _]. apply N.eqb_eq in Hc. subst a.
    now rewrite N.eqb_refl in La.
  - apply andb_prop in H as [-> H]. cbn [andb]. now apply (IH x y).
Qed.

(** A token that starts with its only opening brace does not overlap with
    itself, so the scan meets every occurrence: around any occurrence the
    result is the result for the text before it, the new text, and the
    result for the text behind it. *)
Lemma replace_every (r new : str) :
  lacks lbrace r = true ->
  forall pre suf,
    replace (pre ++ (lbrace :: r) ++ suf) (lbrace :: r) new
    = replace pre (lbrace :: r) new ++ new ++ replace suf (lbrace :: r) new.
Proof.
  intros L pre. remember (length pre) as n eqn:En.
  revert pre En. induction n as [n IH] using lt_wf_ind. intros pre En suf.
  destruct pre as [|c pre].
  - now rewrite app_nil_l, replace_nil, replace_here.
  - destruct (startswith (c :: pre) (lbrace :: r)) eqn:E.
    + apply startswith_inv in E as [p E]. rewrite E.
      rewrite <- app_assoc, !replace_here, <- app_assoc. f_equal.
      apply (IH (length p)); [|reflexivity].
      rewrite En, E. rewrite length_app. simpl. lia.
    + assert (E' : startswith (c :: pre ++ (lbrace :: r) ++ suf) (lbrace :: r)
                   = false).
      { destruct (startswith (c :: pre ++ (lbrace :: r) ++ suf) (lbrace :: r))
          eqn:E2; [|reflexivity].
        rewrite <- E. cbn [startswith] in E2 |- *.
        apply andb_prop in E2 as [-> E2]. cbn [andb]. symmetry.
        now apply startswith_before_brace with (y := r ++ suf). }
      change ((c :: pre) ++ (lbrace :: r) ++ suf)
        with (c :: (pre ++ (lbrace :: r) ++ suf)).
      rewrite !replace_copy by assumption.
      simpl. f_equal. apply (IH (length pre)); [|reflexivity].
      rewrite En. simpl. lia.
Qed.

(** [str.replace] on small texts: every occurrence is replaced, and an
    empty [old] puts [new] around every character. *)
Example replace_all_occurrences :
  replace (lit "spam, spam, eggs") (lit "spam") (lit "ham")
  = lit "ham, ham, eggs".
Proof. reflexivity. Qed.

Example replace_empty_old : replace (lit "abc") [] (lit "-") = lit "-a-b-c-".
Proof. reflexivity. Qed.

Lemma endswith_app (p suffix : str) : endswith (p ++ suffix) suffix = true.
Proof. unfold endswith. rewrite rev_app_distr. apply startswith_app. Qed.

Lemma endswith_inv (s suffix : str) :
  endswith s suffix = true -> exists p, s = p ++ suffix.
Proof.
  unfold endswith. intros H. apply startswith_inv in H as [r H].
  exists (rev r). apply (f_equal (@rev char)) in H.
  now rewrite rev_involutive, rev_app_distr, rev_involutive in H.
Qed.

Lemma startswith_length (old : str) :
  forall s, startswith s old = true -> length old <= length s.
Proof.
  intros s H. apply startswith_inv in H as [r ->]. rewrite length_app. lia.
Qed.

(** A text shorter than [old] holds no occurrence of it. *)
Lemma short_lacks_occurrence (old : str) :
  forall s, length s < length old -> occurs old s = false.
Proof.
  induction s as [|c s IH]; intros L; cbn [occurs].
  - destruct (startswith [] old) eqn:E; [|reflexivity].
    apply startswith_length in E. lia.
  - destruct (startswith (c :: s) old) eqn:E.
    + apply startswith_length in E. lia.
    + apply IH. simpl in L. lia.
Qed.

Lemma prefix_firstn (q e : str) : q = firstn (length q) (q ++ e).
Proof.
  induction q as [|x q IH]; [reflexivity|]. cbn [length app firstn].
  now rewrite <- IH.
Qed.

Lemma suffix_skipn (u c : str) : c = skipn (length u) (u ++ c).
Proof. induction u as [|x u IH]; [reflexivity|exact IH]. Qed.

Lemma existsb_false_In {A : Type} (f : A -> bool) (l : list A) :
  existsb f l = false -> forall x, In x l -> f x = false.
Proof.
  intros H x Hin. destruct (f x) eqn:E; [|reflexivity].
  rewrite <- H. symmetry. apply existsb_exists. now exists x.
Qed.

End PyFacts.

(** * Facts about the matcher *)

Section ReFacts.

(** What a greedy repetition returns: a run of the set, and the result of
    the continuation on what follows the run. *)
Lemma greedy_sound {R : Type} (set : char -> bool) (k : str -> option R) :
  forall s run r,
    greedy set k s = Some (run, r) ->
    forallb set run = true /\ exists s', s = run ++ s' /\ k s' = Some r.
Proof.
  induction s as [|c s IH]; intros run r H.
  - simpl in H. destruct (k []) eqn:Ek; [|discriminate].
    injection H as <- <-. split; [reflexivity|]. now exists [].
  - cbn [greedy] in H. destruct (set c) eqn:Ec.
    + destruct (greedy set k s) as [[run' r']|] eqn:Eg.
      * injection H as <- <-. destruct (IH _ _ eq_refl) as [Hf (s' & -> & Hk)].
        split; [simpl; now rewrite Ec|]. now exists s'.
      * destruct (k (c :: s)) eqn:Ek; [|discriminate].
        injection H as <- <-. split; [reflexivity|]. now exists (c :: s).
    + destruct (k (c :: s)) eqn:Ek; [|discriminate].
      injection H as <- <-. split; [reflexivity|]. now exists (c :: s).
Qed.

(** When the continuation never starts with a character of the set, nothing
    is given back: the run is the longest one. *)
Lemma greedy_exact {R : Type} (set : char -> bool) (k : str -> option R) :
  (forall c s, set c = true -> k (c :: s) = None) ->
  forall run s,
    forallb set run = true ->
    match s with [] => true | c :: _ => negb (set c) end = true ->
    greedy set k (run ++ s) = option_map (pair run) (k s).
Proof.
  intros Hk. induction run as [|c run IH]; intros s Hr Hs.
  - destruct s as [|c s]; [reflexivity|].
    simpl in Hs |- *. apply negb_true_iff in Hs. now rewrite Hs.
  - simpl in Hr. apply andb_prop in Hr as [Hc Hr].
    cbn [app greedy]. rewrite Hc, (IH s Hr Hs).
    destruct (k s); [reflexivity|]. simpl. now rewrite Hk.
Qed.

(** A literal character at the head of a pattern. *)
Lemma match_chr (c : char) (p : pattern) (s : str) :
  match_here (chr c :: p) s
  = match s with
    | x :: s' => if (c =? x)%N then match_here p s' else None
    | [] => None
    end.
Proof.
  destruct s as [|x s]; [reflexivity|]. cbn [match_here chr times accepts captured].
  destruct (c =? x)%N; [|reflexivity].
  now destruct (match_here p s) as [[g rest]|].
Qed.

(** A starred class at the head of a pattern. *)
Lemma match_star (set : char -> bool) (cap : bool) (p : pattern) (s : str) :
  match_here (Atom set Star cap :: p) s
  = match greedy set (match_here p) s with
    | Some (run, (g, rest)) => Some (if cap then run else g, rest)
    | None => None
    end.
Proof. reflexivity. Qed.

(** A class taken once or more at the head of a pattern. *)
Lemma match_plus (set : char -> bool) (cap : bool) (p : pattern) (s : str) :
  match_here (Atom set Plus cap :: p) s
  = match s with
    | c :: s' =>
        if set c then
          match greedy set (match_here p) s' with
          | Some (run, (g, rest)) => Some (if cap then c :: run else g, rest)
          | None => None
          end
        else None
    | [] => None
    end.
Proof. reflexivity. Qed.

(** A match is a prefix of the text, and [rest] is what follows it. *)
Lemma match_here_sound (p : pattern) :
  forall s g rest, match_here p s = Some (g, rest) -> exists m, s = m ++ rest.
Proof.
  induction p as [|a p IH]; intros s g rest H.
  - injection H as _ <-. now exists [].
  - cbn [match_here] in H. destruct (times a).
    + destruct s as [|c s]; [discriminate|].
      destruct (accepts a c); [|discriminate].
      destruct (match_here p s) as [[g' rest']|] eqn:E; [|discriminate].
      injection H as _ <-. destruct (IH _ _ _ E) as [m ->]. now exists (c :: m).
    + destruct (greedy (accepts a) (match_here p) s) as [[run [g' rest']]|] eqn:E;
        [|discriminate].
      injection H as _ <-. apply greedy_sound in E as [_ (s' & -> & E)].
      destruct (IH _ _ _ E) as [m ->]. exists (run ++ m). now rewrite app_assoc.
    + destruct s as [|c s]; [discriminate|].
      destruct (accepts a c); [|discriminate].
      destruct (greedy (accepts a) (match_here p) s) as [[run [g' rest']]|] eqn:E;
        [|discriminate].
      injection H as _ <-. apply greedy_sound in E as [_ (s' & -> & E)].
      destruct (IH _ _ _ E) as [m ->]. exists (c :: run ++ m).
      simpl. now rewrite app_assoc.
Qed.

(** A pattern that ends with a literal character: the match ends with it. *)
Lemma match_here_last (c : char) (p : pattern) :
  forall s g rest,
    match_here (p ++ [chr c]) s = Some (g, rest) ->
    exists m, s = m ++ c :: rest.
Proof.
  induction p as [|a p IH]; intros s g rest H.
  - cbn [app] in H. rewrite match_chr in H.
    destruct s as [|x s]; [discriminate|].
    destruct (c =? x)%N eqn:E; [|discriminate].
    apply N.eqb_eq in E. subst x. injection H as _ <-. now exists [].
  - cbn [app match_here] in H. destruct (times a).
    + destruct s as [|x s]; [discriminate|].
      destruct (accepts a x); [|discriminate].
      destruct (match_here (p ++ [chr c]) s) as [[g' rest']|] eqn:E;
        [|discriminate].
      injection H as _ <-. destruct (IH _ _ _ E) as [m ->]. now exists (x :: m).
    + destruct (greedy (accepts a) (match_here (p ++ [chr c])) s)
        as [[run [g' rest']]|] eqn:E; [|discriminate].
      injection H as _ <-. apply greedy_sound in E as [_ (s' & -> & E)].
      destruct (IH _ _ _ E) as [m ->]. exists (run ++ m).
      now rewrite <- app_assoc.
    + destruct s as [|x s]; [discriminate|].
      destruct (accepts a x); [|discriminate].
      destruct (greedy (accepts a) (match_here (p ++ [chr c])) s)
        as [[run [g' rest']]|] eqn:E; [|discriminate].
      injection H as _ <-. apply greedy_sound in E as [_ (s' & -> & E)].
      destruct (IH _ _ _ E) as [m ->]. exists (x :: run ++ m).
      simpl. now rewrite <- app_assoc.
Qed.

Lemma sub_from_skip (p : pattern) (repl : str -> str) (c : char) (rest : str) :
  forall m, sub_from p repl (length m) (m ++ c :: rest)
            = sub_from p repl 0 (c :: rest).
Proof. induction m as [|x m IH]; [reflexivity|exact IH]. Qed.

(** The scan of [sub] where nothing matches: the character is copied. *)
Lemma sub_copy (p : pattern) (repl : str -> str) (c : char) (s : str) :
  match_here p (c :: s) = None -> sub p repl (c :: s) = c :: sub p repl s.
Proof. intros H. unfold sub. cbn [sub_from]. now rewrite H. Qed.

(** The scan of [sub] at a match that is not empty: the replacement, then
    the scan behind the match. *)
Lemma sub_here (p : pattern) (repl : str -> str) (x : char) (m g rest : str) :
  match_here p (x :: m ++ rest) = Some (g, rest) ->
  match_here p [] = None ->
  sub p repl (x :: m ++ rest) = repl g ++ sub p repl rest.
Proof.
  intros H Hnil. unfold sub. cbn [sub_from]. rewrite H.
  replace (length (x :: m ++ rest) - length rest) with (S (length m))
    by (cbn [length]; rewrite length_app; lia).
  f_equal. destruct rest as [|c rest].
  - rewrite app_nil_r. clear H. induction m as [|y m IH]; [reflexivity|exact IH].
  - apply sub_from_skip.
Qed.

Lemma sub_nil (p : pattern) (repl : str -> str) :
  match_here p [] = None -> sub p repl [] = [].
Proof. intros H. unfold sub. simpl. now rewrite H. Qed.

(** Where no position has a match, [sub] returns the text as it is. *)
Lemma sub_no_match (p : pattern) (repl : str -> str) :
  forall s, (forall a b, s = a ++ b -> match_here p b = None) ->
            sub p repl s = s.
Proof.
  induction s as [|c s IH]; intros H.
  - apply sub_nil. now apply (H [] []).
  - rewrite sub_copy by now apply (H [] (c :: s)).
    f_equal. apply IH. intros a b ->. now apply (H (c :: a) b).
Qed.

(** [search] returns the leftmost position that has a match. *)
Lemma search_some (p : pattern) :
  forall s before g rest,
    search p s = Some (before, g, rest) ->
    exists tail,
      s = before ++ tail /\ match_here p tail = Some (g, rest)
      /\ forall a b, s = a ++ b -> length a < length before ->
                     match_here p b = None.
Proof.
  induction s as [|c s IH]; intros before g rest H.
  - cbn [search] in H. destruct (match_here p []) as [[g' r']|] eqn:E;
      [|discriminate].
    injection H as <- <- <-. exists []. repeat split; [exact E|].
    intros a b _ L. simpl in L. lia.
  - cbn [search] in H. destruct (match_here p (c :: s)) as [[g' r']|] eqn:E.
    + injection H as <- <- <-. exists (c :: s). repeat split; [exact E|].
      intros a b _ L. simpl in L. lia.
    + destruct (search p s) as [[[before' g'] r']|] eqn:Es; [|discriminate].
      injection H as <- <- <-.
      destruct (IH _ _ _ eq_refl) as (tail & -> & Hm & Hmin).
      exists tail. repeat split; [exact Hm|].
      intros a b Hab L. destruct a as [|x a].
      * simpl in Hab. now rewrite <- Hab.
      * injection Hab as _ Hab. apply (Hmin a b Hab). simpl in L. lia.
Qed.

Lemma search_none (p : pattern) :
  forall s, search p s = None ->
            forall a b, s = a ++ b -> match_here p b = None.
Proof.
  induction s as [|c s IH]; intros H a b Hab.
  - destruct a; [|discriminate]. simpl in Hab. subst b.
    cbn [search] in H. now destruct (match_here p []) as [[g r]|].
  - cbn [search] in H. destruct (match_here p (c :: s)) as [[g r]|] eqn:E;
      [discriminate|].
    destruct (search p s) as [[[before g] r]|] eqn:Es; [discriminate|].
    destruct a as [|x a].
    + simpl in Hab. now rewrite <- Hab.
    + injection Hab as _ Hab. now apply (IH eq_refl a b).
Qed.

Lemma search_none_intro (p : pattern) :
  forall s, (forall a b, s = a ++ b -> match_here p b = None) ->
            search p s = None.
Proof.
  induction s as [|c s IH]; intros H.
  - cbn [search]. now rewrite (H [] []).
  - cbn [search]. rewrite (H [] (c :: s)) by reflexivity.
    rewrite IH; [reflexivity|]. intros a b ->. now apply (H (c :: a) b).
Qed.

(** [re.sub('x*', '-', 'abxd')] of the Python documentation: empty matches
    are replaced, also next to a match that is not empty. *)
Example sub_empty_matches :
  sub [Atom (N.eqb 120) Star false] (fun _ => lit "-") (lit "abxd")
  = lit "-a-b--d-".
Proof. reflexivity. Qed.

(** Greedy repetition gives characters back: [a*ab] matches [aaab]. *)
Example greedy_gives_back :
  match_here [Atom (N.eqb 97) Star true; chr 97%N; chr 98%N] (lit "aaabc")
  = Some (lit "aa", lit "c").
Proof. reflexivity. Qed.

End ReFacts.

(** * Facts about the texts and patterns of the script *)

Section Texts.

Lemma lacks_app (c : char) (a b : str) :
  lacks c (a ++ b) = lacks c a && lacks c b.
Proof. apply forallb_app. Qed.

Lemma lacks_cons (c x : char) (s : str) :
  lacks c (x :: s) = negb (x =? c)%N && lacks c s.
Proof. reflexivity. Qed.

Lemma lacks_here (c : char) (a b : str) : lacks c (a ++ c :: b) = false.
Proof.
  rewrite lacks_app, lacks_cons, N.eqb_refl. cbn [negb andb].
  apply andb_false_r.
Qed.

(** A text either lacks [c] or splits at its first [c]. *)
Lemma lacks_or_first (c : char) :
  forall s, lacks c s = true
            \/ exists a b, s = a ++ c :: b /\ lacks c a = true.
Proof.
  induction s as [|x s IH]; [now left|].
  destruct (x =? c)%N eqn:E.
  - right. apply N.eqb_eq in E. subst x. now exists [], s.
  - destruct IH as [IH | (a & b & -> & Ha)].
    + left. now rewrite lacks_cons, E, IH.
    + right. exists (x :: a), b. split; [reflexivity|].
      now rewrite lacks_cons, E, Ha.
Qed.

(** The first [c] of a text is at one place only. *)
Lemma first_unique (c : char) :
  forall a a' b b',
    lacks c a = true -> lacks c a' = true ->
    a ++ c :: b = a' ++ c :: b' -> a = a' /\ b = b'.
Proof.
  induction a as [|x a IH]; intros a' b b' La La' H.
  - destruct a' as [|y a']; [now injection H|].
    injection H as <- _. rewrite lacks_cons, N.eqb_refl in La'. discriminate.
  - destruct a' as [|y a'].
    + injection H as -> _. rewrite lacks_cons, N.eqb_refl in La. discriminate.
    + injection H as <- H. rewrite lacks_cons in La, La'.
      apply andb_prop in La as [_ La]. apply andb_prop in La' as [_ La'].
      destruct (IH _ _ _ La La' H) as [-> ->]. now split.
Qed.

Lemma token_app (key suf : str) :
  token key ++ suf = lbrace :: key ++ rbrace :: suf.
Proof. unfold token. cbn. now rewrite <- app_assoc. Qed.

Lemma if_tag_app (name body s : str) :
  if_tag name body ++ s
  = lbrace :: lit "If" ++ dq :: name ++ dq :: body ++ rbrace :: s.
Proof.
  unfold if_tag. rewrite <- !app_assoc. reflexivity.
Qed.

(** The pattern of the check matches at a token, with the key as group 1. *)
Lemma key_match_intro (key suf : str) :
  is_key key = true ->
  match_here remaining_keys_re (token key ++ suf) = Some (key, suf).
Proof.
  intros H. destruct key as [|c key]; [discriminate|].
  cbn [is_key forallb] in H. apply andb_prop in H as [Hc Hk].
  rewrite token_app. change remaining_keys_re
    with (chr lbrace :: Atom key_char Plus true :: [chr rbrace]).
  rewrite match_chr, N.eqb_refl, match_plus. cbn [app]. rewrite Hc.
  rewrite greedy_exact; [| |exact Hk|reflexivity].
  - now rewrite match_chr, N.eqb_refl.
  - intros x s Hx. rewrite match_chr.
    destruct (rbrace =? x)%N eqn:E; [|reflexivity].
    apply N.eqb_eq in E. subst x. discriminate.
Qed.

(** The pattern of the check matches at tokens only. *)
Lemma key_match_inv (s g rest : str) :
  match_here remaining_keys_re s = Some (g, rest) ->
  s = token g ++ rest /\ is_key g = true.
Proof.
  change remaining_keys_re
    with (chr lbrace :: Atom key_char Plus true :: [chr rbrace]).
  rewrite match_chr. destruct s as [|x s]; [discriminate|].
  destruct (lbrace =? x)%N eqn:Ex; [|discriminate].
  apply N.eqb_eq in Ex. subst x. rewrite match_plus.
  destruct s as [|c s]; [discriminate|].
  destruct (key_char c) eqn:Ec; [|discriminate].
  destruct (greedy key_char (match_here [chr rbrace]) s)
    as [[run [g' rest']]|] eqn:E; [|discriminate].
  intros H. injection H as <- <-.
  apply greedy_sound in E as [Hrun (s' & -> & E)].
  rewrite match_chr in E. destruct s' as [|y s']; [discriminate|].
  destruct (rbrace =? y)%N eqn:Ey; [|discriminate].
  apply N.eqb_eq in Ey. subst y. injection E as _ <-.
  split; [now rewrite token_app|]. cbn [is_key forallb]. now rewrite Ec, Hrun.
Qed.

Lemma openers_app_lacks (u s : str) :
  lacks lbrace u = true -> openers s -> openers (u ++ s).
Proof.
  induction u as [|c u IH]; [easy|]. rewrite lacks_cons. intros H Hs.
  apply andb_prop in H as [Hc H]. split; [|now apply IH].
  intros ->. now rewrite N.eqb_refl in Hc.
Qed.

Lemma openers_suffix (a b : str) : openers (a ++ b) -> openers b.
Proof. induction a as [|c a IH]; [easy|]. intros [_ H]. now apply IH. Qed.

Lemma openers_tag (name body s : str) :
  lacks dq name = true -> lacks lbrace name = true ->
  lacks rbrace name = true -> lacks lbrace body = true ->
  openers s -> openers (if_tag name body ++ s).
Proof.
  intros Hq Hl Hr Hb Hs. rewrite if_tag_app. split.
  - intros _. exists name, (body ++ rbrace :: s). now repeat split.
  - change (lit "If" ++ dq :: name ++ dq :: body ++ rbrace :: s)
      with (lit "If" ++ [dq] ++ name ++ [dq] ++ body ++ [rbrace] ++ s).
    replace (lit "If" ++ [dq] ++ name ++ [dq] ++ body ++ [rbrace] ++ s)
      with ((lit "If" ++ [dq] ++ name ++ [dq] ++ body ++ [rbrace]) ++ s)
      by now rewrite <- !app_assoc.
    apply openers_app_lacks; [|exact Hs].
    rewrite !lacks_app, Hl, Hb. reflexivity.
Qed.

(** A text of plain stretches and well-formed tags has its opening braces at
    the tags only. *)
Lemma only_tags_openers (ps : list piece) :
  only_tags ps = true -> openers (flatten ps).
Proof.
  induction ps as [|p ps IH]; [easy|].
  cbn [only_tags forallb flatten flat_map]. intros H.
  apply andb_prop in H as [Hp H]. specialize (IH H).
  destruct p as [text|name body];
    cbn [piece_text only_tags_piece] in *; unfold well_formed_tag in *.
  - now apply openers_app_lacks.
  - apply andb_prop in Hp as [Hp Hrb]. apply andb_prop in Hp as [Hp Hlb].
    apply andb_prop in Hp as [Hp Hr]. apply andb_prop in Hp as [Hq Hl].
    now apply openers_tag.
Qed.

(** Behind the opener of a tag there is no key: the double quote is not a
    character of keys. *)
Lemma opener_no_key (s : str) :
  match_here remaining_keys_re (lbrace :: lit "If" ++ dq :: s) = None.
Proof.
  destruct (match_here remaining_keys_re _) as [[g r]|] eqn:E; [|reflexivity].
  exfalso. apply key_match_inv in E as [E Hk]. rewrite token_app in E.
  injection E as E. cbn in E.
  destruct g as [|g0 g]; [discriminate|]. injection E as <- E.
  destruct g as [|g1 g]; [discriminate|]. injection E as <- E.
  destruct g as [|g2 g]; [discriminate|]. injection E as <- E.
  discriminate.
Qed.

Lemma opens_tag_no_key (s : str) :
  opens_tag s -> match_here remaining_keys_re (lbrace :: s) = None.
Proof. intros (name & rest & -> & _). apply opener_no_key. Qed.

Lemma key_match_needs_brace (c : char) (s : str) :
  c <> lbrace -> match_here remaining_keys_re (c :: s) = None.
Proof.
  intros H. change remaining_keys_re
    with (chr lbrace :: Atom key_char Plus true :: [chr rbrace]).
  rewrite match_chr. destruct (lbrace =? c)%N eqn:E; [|reflexivity].
  apply N.eqb_eq in E. congruence.
Qed.

Lemma openers_no_key (s : str) : openers s -> remaining_keys s = None.
Proof.
  intros H. apply search_none_intro. intros a b ->.
  apply openers_suffix in H. destruct b as [|c b]; [reflexivity|].
  destruct (N.eq_dec c lbrace) as [->|Hc].
  - apply opens_tag_no_key. now apply H.
  - now apply key_match_needs_brace.
Qed.

Lemma app_same_length (a a' b b' : str) :
  a ++ b = a' ++ b' -> length a = length a' -> a = a' /\ b = b'.
Proof.
  revert a'. induction a as [|x a IH]; intros [|y a'] H L;
    try discriminate; [now split|].
  injection H as <- H. injection L as L.
  destruct (IH _ H L) as [-> ->]. now split.
Qed.

(** The check reports the token that no other token precedes. *)
Lemma remaining_keys_leftmost (page pre key suf : str) :
  is_key key = true ->
  page = pre ++ token key ++ suf ->
  (forall a k b, is_key k = true -> page = a ++ token k ++ b ->
                 length pre <= length a) ->
  remaining_keys page = Some (pre, key, suf).
Proof.
  intros Hk Hp Hmin. unfold remaining_keys.
  destruct (search remaining_keys_re page) as [[[before g] rest]|] eqn:E.
  - apply search_some in E as (tail & Ht & Hm & Hfirst).
    destruct (key_match_inv _ _ _ Hm) as [Htail Hg].
    assert (L1 : length pre <= length before)
      by (apply (Hmin before g rest Hg); now rewrite Ht, Htail).
    assert (L2 : ~ length pre < length before).
    { intros L. specialize (Hfirst pre (token key ++ suf) Hp L).
      rewrite key_match_intro in Hfirst by exact Hk. discriminate. }
    assert (L : length pre = length before) by lia.
    rewrite Hp in Ht. destruct (app_same_length _ _ _ _ Ht L) as [<- <-].
    rewrite key_match_intro in Hm by exact Hk. now injection Hm as <- <-.
  - apply search_none with (a := pre) (b := token key ++ suf) in E;
      [|exact Hp].
    rewrite key_match_intro in E by exact Hk. discriminate.
Qed.

(** A text with a token has one that the check reports. *)
Lemma remaining_keys_some (page pre key suf : str) :
  is_key key = true ->
  page = pre ++ token key ++ suf ->
  exists pre' key' suf',
    is_key key' = true /\ page = pre' ++ token key' ++ suf'
    /\ remaining_keys page = Some (pre', key', suf').
Proof.
  intros Hk Hp. unfold remaining_keys.
  destruct (search remaining_keys_re page) as [[[before g] rest]|] eqn:E.
  - apply search_some in E as (tail & Ht & Hm & _).
    destruct (key_match_inv _ _ _ Hm) as [Htail Hg].
    exists before, g, rest. repeat split; [exact Hg|now rewrite Ht, Htail].
  - apply search_none with (a := pre) (b := token key ++ suf) in E;
      [|exact Hp].
    rewrite key_match_intro in E by exact Hk. discriminate.
Qed.

End Texts.

(** * The rendering pipeline *)

(** C1.  The end-to-end page: with the base [<html>{Content}</html>], the
    content with a greeting, the page name and the two tags, the page name
    [index] and the dictionary that maps [greeting] to [Hello], the pipeline
    returns [<html><p>Hello, index!</p><b>Home</b></html>]. *)
Theorem end_to_end_render :
  render end_to_end_base end_to_end_content (lit "index")
         [(lit "greeting", lit "Hello")]
  = Ok (lit "<html><p>Hello, index!</p><b>Home</b></html>").
Proof. vm_compute. reflexivity. Qed.

(** C2.  When the text still holds a token of key characters after content,
    page name and keys are put in, rendering raises the key error with the
    name of such a token, returns no page, and the loop body writes no file;
    the end-to-end page with the empty dictionary fails on [greeting]. *)
Theorem remaining_key_raises :
  (forall base content filename lang,
      (exists pre key suf,
          is_key key = true
          /\ substituted base content filename lang = pre ++ token key ++ suf) ->
      (exists pre key suf,
          is_key key = true
          /\ substituted base content filename lang = pre ++ token key ++ suf
          /\ render base content filename lang
             = Raise (KeyError (no_jana_cabe key)))
      /\ (forall page, render base content filename lang <> Ok page)
      /\ (forall json_load lang_code w text,
             files w (template_path filename) = Some content ->
             files w (lang_path lang_code) = Some text ->
             json_load text = Some lang ->
             files (snd (build_page json_load base filename lang_code w))
             = files w))
  /\ render end_to_end_base end_to_end_content (lit "index") []
     = Raise (KeyError (no_jana_cabe (lit "greeting"))).
Proof.
  split; [|vm_compute; reflexivity].
  intros base content filename lang (pre & key & suf & Hk & Hp).
  destruct (remaining_keys_some _ _ _ _ Hk Hp)
    as (pre' & key' & suf' & Hk' & Hp' & Hr).
  assert (Hrender : render base content filename lang
                    = Raise (KeyError (no_jana_cabe key')))
    by (unfold render; now rewrite Hr).
  split; [|split].
  - now exists pre', key', suf'.
  - intros page. rewrite Hrender. discriminate.
  - intros json_load lang_code w text Hc Ht Hj. unfold build_page, read.
    cbn [print files]. now rewrite Hc, Ht, Hj, Hrender.
Qed.

Lemma remaining_key_raises_witness :
  exists pre key suf,
    is_key key = true
    /\ substituted end_to_end_base end_to_end_content (lit "index") []
       = pre ++ token key ++ suf
    /\ render end_to_end_base end_to_end_content (lit "index") []
       = Raise (KeyError (no_jana_cabe key)).
Proof.
  apply (proj1 remaining_key_raises
           end_to_end_base end_to_end_content (lit "index") []).
  exists (lit "<html><p>"), (lit "greeting").
  eexists. split; [reflexivity|]. vm_compute. reflexivity.
Defined.

(** C9.  The key that the error names is the one of the leftmost token:
    when the text is [pre ++ {key} ++ suf] and no token starts before
    [pre] ends, the check finds this token and rendering raises the key
    error with [key]. *)
Theorem leftmost_key_named (base content filename : str) (lang : dict)
    (pre key suf : str) :
  is_key key = true ->
  substituted base content filename lang = pre ++ token key ++ suf ->
  (forall a k b,
      is_key k = true ->
      substituted base content filename lang = a ++ token k ++ b ->
      length pre <= length a) ->
  remaining_keys (substituted base content filename lang)
  = Some (pre, key, suf)
  /\ render base content filename lang = Raise (KeyError (no_jana_cabe key)).
Proof.
  intros Hk Hp Hmin.
  assert (Hr := remaining_keys_leftmost _ _ _ _ Hk Hp Hmin).
  split; [exact Hr|]. unfold render. now rewrite Hr.
Qed.

Lemma leftmost_key_named_witness :
  render (lit "{Content}") (lit "a{x}b{y}") (lit "index") []
  = Raise (KeyError (no_jana_cabe (lit "x"))).
Proof.
  apply (leftmost_key_named (lit "{Content}") (lit "a{x}b{y}") (lit "index")
           [] (lit "a") (lit "x") (lit "b{y}")).
  - reflexivity.
  - vm_compute. reflexivity.
  - intros a k b _ H. destruct a as [|c a]; [|simpl; lia].
    vm_compute in H. discriminate H.
Defined.

(** C10.  The pattern of the check never matches at a tag, whose double
    quote is no key character; so a text whose opening braces are those of
    well-formed tags passes the check, and the pipeline hands it unchanged
    to the resolution of the tags. *)
Theorem tags_pass_the_check :
  (forall name body rest,
      match_here remaining_keys_re (if_tag name body ++ rest) = None)
  /\ (forall ps,
         only_tags ps = true ->
         remaining_keys (flatten ps) = None
         /\ forall base content filename lang,
             substituted base content filename lang = flatten ps ->
             render base content filename lang
             = resolve_ifs filename (flatten ps)).
Proof.
  split.
  - intros name body rest. rewrite if_tag_app. apply opener_no_key.
  - intros ps H.
    assert (Hr : remaining_keys (flatten ps) = None)
      by now apply openers_no_key, only_tags_openers.
    split; [exact Hr|].
    intros base content filename lang Hs. unfold render. now rewrite Hs, Hr.
Qed.

Lemma tags_pass_the_check_witness :
  remaining_keys
    (flatten [Plain (lit "<p>"); Tag (lit "index") (lit "<b>Home</b>");
              Plain (lit "</p>"); Tag (lit "about") (lit "x")]) = None
  /\ render (lit "<p>{Content}")
        (flatten [Tag (lit "index") (lit "<b>Home</b>");
                  Plain (lit "</p>"); Tag (lit "about") (lit "x")])
        (lit "index") []
     = resolve_ifs (lit "index")
         (flatten [Plain (lit "<p>"); Tag (lit "index") (lit "<b>Home</b>");
                   Plain (lit "</p>"); Tag (lit "about") (lit "x")]).
Proof.
  assert (H := proj2 tags_pass_the_check
                 [Plain (lit "<p>"); Tag (lit "index") (lit "<b>Home</b>");
                  Plain (lit "</p>"); Tag (lit "about") (lit "x")]
                 eq_refl).
  split; [exact (proj1 H)|].
  apply (proj2 H). vm_compute. reflexivity.
Defined.

(** * No new token of the page name *)

Section NameToken.

Variable filename : str.
Hypothesis Hclear : meets_name_token filename = false.

Lemma name_lacks_token : occurs name_token filename = false.
Proof.
  unfold meets_name_token in Hclear.
  apply orb_false_elim in Hclear as [H _].
  now apply orb_false_elim in H as [H _].
Qed.

Lemma name_no_stretch : occurs filename name_token = false.
Proof.
  unfold meets_name_token in Hclear.
  apply orb_false_elim in Hclear as [H _].
  now apply orb_false_elim in H as [_ H].
Qed.

Lemma name_no_overlap (k : nat) :
  1 <= k <= 6 ->
  endswith filename (firstn k name_token) = false
  /\ startswith filename (skipn k name_token) = false.
Proof.
  intros Hk. unfold meets_name_token in Hclear.
  apply orb_false_elim in Hclear as [_ H].
  apply orb_false_elim.
  apply (existsb_false_In _ _ H k). cbn [In]. lia.
Qed.

(** The page name does not end with a beginning of the token. *)
Lemma no_end_overlap (q0 q e : str) :
  filename = q0 ++ q -> name_token = q ++ e -> q <> [] -> e <> [] -> False.
Proof.
  intros Hf Ht Hq He.
  assert (L : length q + length e = 7)
    by (rewrite <- length_app, <- Ht; reflexivity).
  assert (Hk : 1 <= length q <= 6)
    by (destruct q; [congruence|]; destruct e; [congruence|]; simpl in L |- *; lia).
  destruct (name_no_overlap (length q) Hk) as [H _].
  rewrite Ht, <- prefix_firstn, Hf, endswith_app in H. discriminate.
Qed.

(** The page name does not begin with an end of the token. *)
Lemma no_start_overlap (u v q : str) :
  filename = v ++ q -> name_token = u ++ v -> u <> [] -> v <> [] -> False.
Proof.
  intros Hf Ht Hu Hv.
  assert (L : length u + length v = 7)
    by (rewrite <- length_app, <- Ht; reflexivity).
  assert (Hk : 1 <= length u <= 6)
    by (destruct u; [congruence|]; destruct v; [congruence|]; simpl in L |- *; lia).
  destruct (name_no_overlap (length u) Hk) as [_ H].
  rewrite Ht, <- suffix_skipn, Hf, startswith_app in H. discriminate.
Qed.

(** No token starts inside a page name that was put in. *)
Lemma occurs_behind_name (X : str) :
  forall q q0,
    filename = q0 ++ q ->
    occurs name_token (q ++ X) = occurs name_token X.
Proof.
  induction q as [|c q IH]; intros q0 Hq; [reflexivity|].
  cbn [app occurs].
  rewrite (IH (q0 ++ [c])) by (now rewrite <- app_assoc).
  destruct (startswith (c :: q ++ X) name_token) eqn:E; [exfalso|reflexivity].
  apply startswith_inv in E as [r E].
  change (c :: q ++ X) with ((c :: q) ++ X) in E.
  apply app_eq_app in E as [l [[E1 E2] | [E1 E2]]].
  - assert (H : occurs name_token filename = true)
      by (apply occurs_spec; exists q0, l; now rewrite Hq, E1).
    rewrite name_lacks_token in H. discriminate.
  - destruct l as [|y l].
    + rewrite app_nil_r in E1.
      assert (H : occurs name_token filename = true)
        by (apply occurs_spec; exists q0, []; now rewrite Hq, E1, app_nil_r).
      rewrite name_lacks_token in H. discriminate.
    + apply (no_end_overlap q0 (c :: q) (y :: l));
        [exact Hq|exact E1|discriminate|discriminate].
Qed.

(** What the name substitution returns starts with a tail of the token only
    where the text did. *)
Lemma tail_from_the_text :
  forall s a c,
    name_token = a ++ c -> a <> [] ->
    startswith (replace_special_key s filename) c = true ->
    startswith s c = true.
Proof.
  unfold replace_special_key. change (lit "{.name}") with (lbrace :: lit ".name}").
  induction s as [|x s IH]; intros a c Hac Ha H; [exact H|].
  destruct c as [|y c]; [reflexivity|].
  destruct (startswith (x :: s) (lbrace :: lit ".name}")) eqn:E.
  - exfalso. apply startswith_inv in E as [rest E]. rewrite E, replace_here in H.
    apply startswith_inv in H as [r H].
    apply app_eq_app in H as [l [[H1 H2] | [H1 H2]]].
    + apply (no_start_overlap a (y :: c) l);
        [exact H1|exact Hac|exact Ha|discriminate].
    + assert (Ho : occurs filename name_token = true)
        by (apply occurs_spec; exists a, l; now rewrite Hac, H1).
      rewrite name_no_stretch in Ho. discriminate.
  - rewrite replace_copy in H by exact E. cbn [startswith] in H |- *.
    apply andb_prop in H as [-> H]. cbn [andb].
    apply (IH (a ++ [y]) c);
      [now rewrite <- app_assoc|now destruct a|exact H].
Qed.

(** After the name substitution the text holds no token [{.name}]. *)
Lemma no_new_name_token :
  forall s, occurs name_token (replace_special_key s filename) = false.
Proof.
  intros s. remember (length s) as n eqn:En. revert s En.
  induction n as [n IH] using lt_wf_ind. intros s En.
  unfold replace_special_key in *.
  change (lit "{.name}") with (lbrace :: lit ".name}") in *.
  destruct s as [|x s]; [reflexivity|].
  destruct (startswith (x :: s) (lbrace :: lit ".name}")) eqn:E.
  - apply startswith_inv in E as [rest E]. rewrite E, replace_here.
    rewrite (occurs_behind_name _ filename [] eq_refl).
    apply (IH (length rest)); [|reflexivity].
    rewrite En, E, length_app. simpl. lia.
  - rewrite replace_copy by exact E. cbn [occurs].
    rewrite (IH (length s)) by (rewrite ?En; simpl; lia || reflexivity).
    rewrite orb_false_r.
    destruct (startswith (x :: replace s (lbrace :: lit ".name}") filename)
                name_token) eqn:E2; [|reflexivity].
    rewrite <- E. change name_token with (lbrace :: lit ".name}") in E2.
    cbn [startswith] in E2 |- *.
    apply andb_prop in E2 as [-> E2]. cbn [andb]. symmetry.
    apply (tail_from_the_text s [lbrace] (lit ".name}"));
      [reflexivity|discriminate|exact E2].
Qed.

End NameToken.

(** * The three substitutions *)

Lemma replace_whole (o : char) (old new : str) :
  replace (o :: old) (o :: old) new = new.
Proof.
  rewrite <- (app_nil_r (o :: old)) at 1.
  now rewrite replace_here, replace_nil, app_nil_r.
Qed.

(** C4, as the code has it.  [str.replace] without a count replaces every
    occurrence: around any occurrence of [{Content}] in the base the result
    is the result for the text before it, the content, and the result for
    the text behind it; a base without the placeholder is left as it is.
    The content put in is not scanned. *)
Theorem insert_content_every :
  (forall pre suf content,
      insert_content (pre ++ lit "{Content}" ++ suf) content
      = insert_content pre content ++ content ++ insert_content suf content)
  /\ (forall base content,
         occurs (lit "{Content}") base = false ->
         insert_content base content = base).
Proof.
  split.
  - intros pre suf content.
    exact (replace_every (lit "Content}") content eq_refl pre suf).
  - intros base content H.
    exact (replace_absent lbrace (lit "Content}") content base H).
Qed.

Lemma insert_content_every_witness :
  insert_content (lit "<html></html>") (lit "<p>hi</p>") = lit "<html></html>".
Proof.
  apply (proj2 insert_content_every (lit "<html></html>") (lit "<p>hi</p>")).
  reflexivity.
Defined.

(** C4, as the claim states it, fails: with the placeholder twice in the
    base, the second one is replaced as well. *)
Lemma insert_content_first_only_fails :
  insert_content (lit "{Content}|{Content}") (lit "x") = lit "x|x"
  /\ insert_content (lit "{Content}|{Content}") (lit "x")
     <> lit "x|{Content}".
Proof. split; [vm_compute; reflexivity|vm_compute; discriminate]. Qed.

(** C5, as the code has it.  The keys are put in by one pass of
    [str.replace] per pair, in the order of the dictionary.  A pass copies
    the text up to the first token of its key, puts the value in as it is
    and goes on behind the token, so it never scans the value it has put
    in; a text without the token is left as it is.  The next passes do scan
    that value: a token of a later key inside the value is replaced, a token
    of an earlier key or of the key itself is not. *)
Theorem key_passes_in_order :
  (forall page, replace_basic_keys page [] = page)
  /\ (forall page key value lang,
         replace_basic_keys page ((key, value) :: lang)
         = replace_basic_keys (replace page (token key) value) lang)
  /\ (forall key value pre suf,
         occurs (token key) (pre ++ removelast (token key)) = false ->
         replace (pre ++ token key ++ suf) (token key) value
         = pre ++ value ++ replace suf (token key) value)
  /\ (forall key value page,
         occurs (token key) page = false ->
         replace page (token key) value = page)
  /\ (forall key value key' value',
         replace_basic_keys (token key) [(key, value); (key', value')]
         = replace value (token key') value')
  /\ (forall key value key' value',
         occurs (token key') (token key) = false ->
         replace_basic_keys (token key) [(key', value'); (key, value)]
         = value).
Proof.
  repeat split.
  - intros key value pre suf H.
    exact (replace_first lbrace (key ++ lit "}") value suf pre H).
  - intros key value page H.
    exact (replace_absent lbrace (key ++ lit "}") value page H).
  - intros key value key' value'. cbn [replace_basic_keys fold_left fst snd].
    f_equal. exact (replace_whole lbrace (key ++ lit "}") value).
  - intros key value key' value' H. cbn [replace_basic_keys fold_left fst snd].
    assert (E := replace_absent lbrace (key' ++ lit "}") value' (token key) H).
    change (lbrace :: key' ++ lit "}") with (token key') in E. rewrite E.
    exact (replace_whole lbrace (key ++ lit "}") value).
Qed.

Lemma key_passes_in_order_witness :
  replace (lit "<{a}{a}>") (token (lit "a")) (lit "{a}{b}")
  = lit "<" ++ lit "{a}{b}" ++ replace (lit "{a}>") (token (lit "a")) (lit "{a}{b}")
  /\ replace (lit "<{b}>") (token (lit "a")) (lit "x") = lit "<{b}>"
  /\ replace_basic_keys (token (lit "a"))
       [(lit "b", lit "X"); (lit "a", lit "{b}")] = lit "{b}".
Proof.
  split; [|split].
  - apply (proj1 (proj2 (proj2 key_passes_in_order))
             (lit "a") (lit "{a}{b}") (lit "<") (lit "{a}>")).
    reflexivity.
  - apply (proj1 (proj2 (proj2 (proj2 key_passes_in_order)))
             (lit "a") (lit "x") (lit "<{b}>")).
    reflexivity.
  - apply (proj2 (proj2 (proj2 (proj2 (proj2 key_passes_in_order))))
             (lit "a") (lit "{b}") (lit "b") (lit "X")).
    reflexivity.
Defined.

(** C5, as the claim states it, fails: the value of [a] holds the token of
    [b], whose pass comes later and replaces it. *)
Lemma inserted_token_replaced :
  replace_basic_keys (lit "{a}") [(lit "a", lit "{b}"); (lit "b", lit "X")]
  = lit "X"
  /\ occurs (token (lit "b"))
       (replace_basic_keys (lit "{a}")
          [(lit "a", lit "{b}"); (lit "b", lit "X")]) = false.
Proof. split; vm_compute; reflexivity. Qed.

(** ** Where a token of the page name can form *)

Lemma name_key_whole (filename : str) :
  replace_special_key name_token filename = filename.
Proof. exact (replace_whole lbrace (lit ".name}") filename). Qed.

Lemma name_key_here (filename r : str) :
  replace_special_key (name_token ++ r) filename
  = filename ++ replace_special_key r filename.
Proof. exact (replace_here lbrace (lit ".name}") filename r). Qed.

Lemma name_key_every (filename pre suf : str) :
  replace_special_key (pre ++ name_token ++ suf) filename
  = replace_special_key pre filename ++ filename
    ++ replace_special_key suf filename.
Proof. exact (replace_every (lit ".name}") filename eq_refl pre suf). Qed.

Lemma name_key_short (filename s : str) :
  length s < 7 -> replace_special_key s filename = s.
Proof.
  intros L. apply (replace_absent lbrace (lit ".name}") filename s).
  apply short_lacks_occurrence. exact L.
Qed.

(** Around a page name that can lie over the token, some text has a token
    after the name substitution. *)
Lemma name_token_forms (filename : str) :
  meets_name_token filename = true ->
  exists text, occurs name_token (replace_special_key text filename) = true.
Proof.
  unfold meets_name_token. intros H.
  apply orb_prop in H as [H | H]; [apply orb_prop in H as [H | H]|].
  - exists name_token. now rewrite name_key_whole.
  - apply occurs_spec in H as (a & b & H).
    destruct filename as [|c f'].
    + exists (lit "{.na{.name}me}"). vm_compute. reflexivity.
    + assert (L : length a + (S (length f') + length b) = 7).
      { change 7 with (length name_token). rewrite H, !length_app. reflexivity. }
      exists (a ++ name_token ++ b).
      rewrite name_key_every, !name_key_short by lia.
      rewrite <- H. vm_compute. reflexivity.
  - apply existsb_exists in H as (k & Hin & H). cbn [In] in Hin.
    assert (Hk : 1 <= k <= 6) by lia. clear Hin.
    assert (Lu : length (firstn k name_token) < 7)
      by (rewrite length_firstn; lia).
    assert (Lv : length (skipn k name_token) < 7)
      by (rewrite length_skipn; change (length name_token) with 7; lia).
    apply orb_prop in H as [H | H].
    + apply endswith_inv in H as [q H].
      exists (name_token ++ skipn k name_token).
      rewrite name_key_here, name_key_short by exact Lv.
      apply occurs_spec. exists q, [].
      rewrite H at 1. rewrite app_nil_r, <- app_assoc.
      now rewrite firstn_skipn.
    + apply startswith_inv in H as [q H].
      exists (firstn k name_token ++ name_token ++ []).
      rewrite name_key_every, name_key_short by exact Lu.
      apply occurs_spec. exists [], q.
      change (replace_special_key [] filename) with (@nil char).
      cbn [app]. rewrite H at 1. rewrite app_nil_r, app_assoc.
      now rewrite firstn_skipn.
Qed.

(** For a page name without braces, to lie over the token is to be a
    stretch of [.name]. *)
Lemma meets_without_braces (filename : str) :
  lacks lbrace filename = true -> lacks rbrace filename = true ->
  meets_name_token filename = occurs filename (lit ".name").
Proof.
  intros Hl Hr. unfold meets_name_token.
  assert (H1 : occurs name_token filename = false).
  { destruct (occurs name_token filename) eqn:E; [|reflexivity].
    apply occurs_spec in E as (a & b & E).
    change name_token with (lbrace :: lit ".name}") in E. cbn [app] in E.
    rewrite E, lacks_here in Hl. discriminate. }
  assert (H3 : existsb (fun k => endswith filename (firstn k name_token)
                                 || startswith filename (skipn k name_token))
                 [1; 2; 3; 4; 5; 6] = false).
  { match goal with |- ?b = false => destruct b eqn:E; [exfalso|reflexivity] end.
    apply existsb_exists in E as (k & Hin & E). cbn [In] in Hin.
    apply orb_prop in E as [E | E].
    - apply endswith_inv in E as [q E].
      destruct k as [|k]; [lia|].
      change (firstn (S k) name_token)
        with (lbrace :: firstn k (lit ".name}")) in E.
      rewrite E, lacks_here in Hl. discriminate.
    - apply startswith_inv in E as [q E].
      assert (Hv : skipn k name_token
                   = removelast (skipn k name_token) ++ [rbrace])
        by (do 7 (destruct k as [|k]; [first [lia|reflexivity]|]); lia).
      rewrite Hv, <- app_assoc in E. cbn [app] in E.
      rewrite E, lacks_here in Hr. discriminate. }
  rewrite H1, H3, orb_false_r. cbn [orb].
  apply Bool.eq_true_iff_eq. rewrite !occurs_spec. split.
  - intros (a & b & H).
    destruct filename as [|c f']; [now exists [], (lit ".name")|].
    change name_token with (lbrace :: lit ".name" ++ [rbrace]) in H.
    destruct a as [|x a].
    + cbn [app] in H. injection H as Hc _. subst c.
      rewrite lacks_cons, N.eqb_refl in Hl. discriminate.
    + change ((x :: a) ++ (c :: f') ++ b) with (x :: (a ++ (c :: f') ++ b)) in H.
      injection H as _ H.
      induction b as [|y b' _] using rev_ind.
      * rewrite app_nil_r in H.
        destruct (@exists_last _ (c :: f') ltac:(discriminate)) as (p' & z & Hp).
        rewrite Hp, app_assoc in H.
        apply (app_inj_tail (lit ".name") (a ++ p') rbrace z) in H as [_ Hz].
        subst z.
        rewrite Hp, lacks_here in Hr. discriminate.
      * assert (H' : lit ".name" ++ [rbrace] = (a ++ (c :: f') ++ b') ++ [y])
          by (rewrite <- !app_assoc; exact H).
        apply app_inj_tail in H' as [H' _]. now exists a, b'.
  - intros (a & b & H). exists (lbrace :: a), (b ++ [rbrace]).
    change name_token with (lbrace :: lit ".name" ++ [rbrace]).
    rewrite H. cbn [app]. now rewrite <- !app_assoc.
Qed.

(** C6, as the code has it.  Every occurrence of [{.name}] is replaced by
    the page name: around any occurrence the result is the result for the
    text before it, the page name, and the result for the text behind it,
    and a text without the token is left as it is.  The dictionary has no
    part in this pass, and its own passes receive the text with the page
    name in the place of the token.  Unless the page name can lie over the
    token (it holds the token, is a stretch of it, ends with a beginning of
    it or begins with an end of it), no token [{.name}] is left or formed,
    and an entry [.name] at the head of the dictionary changes nothing,
    neither in the text nor in what rendering returns.  Around each page
    name that can lie over the token, some text holds a token after the
    name substitution, and the pass of an entry [.name] replaces it.  For a
    page name without braces, to lie over the token is to be a stretch of
    [.name], the empty name being one. *)
Theorem name_substitution :
  (forall pre suf filename,
      replace_special_key (pre ++ lit "{.name}" ++ suf) filename
      = replace_special_key pre filename ++ filename
        ++ replace_special_key suf filename)
  /\ (forall page filename,
         occurs (lit "{.name}") page = false ->
         replace_special_key page filename = page)
  /\ (forall base content filename lang pre suf,
         insert_content base content = pre ++ lit "{.name}" ++ suf ->
         substituted base content filename lang
         = replace_basic_keys
             (replace_special_key pre filename ++ filename
              ++ replace_special_key suf filename) lang)
  /\ (forall base content filename lang value,
         meets_name_token filename = false ->
         occurs (lit "{.name}")
           (replace_special_key (insert_content base content) filename) = false
         /\ substituted base content filename ((lit ".name", value) :: lang)
            = substituted base content filename lang
         /\ render base content filename ((lit ".name", value) :: lang)
            = render base content filename lang)
  /\ (forall filename,
         meets_name_token filename = true ->
         exists text,
           occurs (lit "{.name}") (replace_special_key text filename) = true
           /\ forall value,
                substituted (lit "{Content}") text filename
                  [(lit ".name", value)]
                = replace (replace_special_key text filename)
                    (lit "{.name}") value)
  /\ (forall filename,
         lacks lbrace filename = true -> lacks rbrace filename = true ->
         meets_name_token filename = occurs filename (lit ".name"))
  /\ render (lit "{Content}") (lit "<{.name}>") (lit "index")
            [(lit ".name", lit "evil")]
     = Ok (lit "<index>").
Proof.
  assert (Hevery : forall pre suf filename,
             replace_special_key (pre ++ lit "{.name}" ++ suf) filename
             = replace_special_key pre filename ++ filename
               ++ replace_special_key suf filename)
    by (intros pre suf filename;
        exact (replace_every (lit ".name}") filename eq_refl pre suf)).
  split; [exact Hevery|]. split; [|split; [|split; [|split; [|split]]]].
  - intros page filename H.
    exact (replace_absent lbrace (lit ".name}") filename page H).
  - intros base content filename lang pre suf H. unfold substituted.
    now rewrite H, Hevery.
  - intros base content filename lang value Hs.
    assert (Hno := no_new_name_token filename Hs (insert_content base content)).
    assert (Hsub : substituted base content filename
                     ((lit ".name", value) :: lang)
                   = substituted base content filename lang).
    { unfold substituted, replace_basic_keys. cbn [fold_left fst snd].
      f_equal.
      exact (replace_absent lbrace (lit ".name}") value _ Hno). }
    split; [exact Hno|]. split; [exact Hsub|]. unfold render. now rewrite Hsub.
  - intros filename H. destruct (name_token_forms filename H) as [text Ht].
    exists text. split; [exact Ht|]. intros value.
    assert (E : insert_content (lit "{Content}") text = text)
      by exact (replace_whole lbrace (lit "Content}") text).
    unfold substituted. rewrite E. reflexivity.
  - exact meets_without_braces.
  - vm_compute. reflexivity.
Qed.

Lemma name_substitution_witness :
  replace_special_key (lit "<p>{greeting}</p>") (lit "index")
  = lit "<p>{greeting}</p>"
  /\ substituted (lit "<html>{Content}</html>") (lit "<{.name}>") (lit "index")
       [(lit ".name", lit "evil")]
     = replace_basic_keys
         (replace_special_key (lit "<html><") (lit "index") ++ lit "index"
          ++ replace_special_key (lit "></html>") (lit "index"))
         [(lit ".name", lit "evil")]
  /\ render end_to_end_base end_to_end_content (lit "en")
       [(lit ".name", lit "evil"); (lit "greeting", lit "Hello")]
     = render end_to_end_base end_to_end_content (lit "en")
         [(lit "greeting", lit "Hello")]
  /\ (exists text,
         occurs (lit "{.name}") (replace_special_key text (lit "am")) = true
         /\ forall value,
              substituted (lit "{Content}") text (lit "am")
                [(lit ".name", value)]
              = replace (replace_special_key text (lit "am"))
                  (lit "{.name}") value)
  /\ meets_name_token (lit "mean") = occurs (lit "mean") (lit ".name").
Proof.
  split; [|split; [|split; [|split]]].
  - apply (proj1 (proj2 name_substitution)
             (lit "<p>{greeting}</p>") (lit "index")).
    reflexivity.
  - apply (proj1 (proj2 (proj2 name_substitution))
             (lit "<html>{Content}</html>") (lit "<{.name}>") (lit "index")
             [(lit ".name", lit "evil")] (lit "<html><") (lit "></html>")).
    vm_compute. reflexivity.
  - apply (proj1 (proj2 (proj2 (proj2 name_substitution)))
             end_to_end_base end_to_end_content (lit "en")
             [(lit "greeting", lit "Hello")] (lit "evil")).
    reflexivity.
  - apply (proj1 (proj2 (proj2 (proj2 (proj2 name_substitution)))) (lit "am")).
    reflexivity.
  - apply (proj1 (proj2 (proj2 (proj2 (proj2 (proj2 name_substitution)))))
             (lit "mean")); reflexivity.
Defined.

(** C6, as the claim states it, fails: the page name [am] put in the place
    of the token completes a new token [{.name}], and the entry [.name] of
    the dictionary decides what the page holds there. *)
Lemma name_token_formed_anew :
  page_name (lit "am.html") = Some (lit "am")
  /\ replace_special_key (lit "{.n{.name}e}") (lit "am") = lit "{.name}"
  /\ render (lit "{Content}") (lit "{.n{.name}e}") (lit "am")
            [(lit ".name", lit "X")] = Ok (lit "X")
  /\ render (lit "{Content}") (lit "{.n{.name}e}") (lit "am")
            [(lit ".name", lit "Y")] = Ok (lit "Y").
Proof. repeat split; vm_compute; reflexivity. Qed.

(** * Equality of strings *)

Lemma str_eqb_refl (a : str) : str_eqb a a = true.
Proof. induction a as [|x a IH]; [reflexivity|]. simpl. now rewrite N.eqb_refl. Qed.

(** * The resolution of the tags *)

(** The literal characters of the opener [{If] and the double quote behind
    it, in the goal and in a hypothesis. *)
Ltac opener :=
  cbn [lit list_ascii_of_string map app];
  rewrite match_chr, N.eqb_refl; change (N_of_ascii "I") with 73%N;
  rewrite match_chr, N.eqb_refl; change (N_of_ascii "f") with 102%N;
  rewrite match_chr, N.eqb_refl, match_chr, N.eqb_refl.

Ltac opener_in H :=
  cbn [lit list_ascii_of_string map app] in H;
  rewrite match_chr, N.eqb_refl in H; change (N_of_ascii "I") with 73%N in H;
  rewrite match_chr, N.eqb_refl in H; change (N_of_ascii "f") with 102%N in H;
  rewrite match_chr, N.eqb_refl, match_chr, N.eqb_refl in H.

Section Tags.

Lemma name_re_ones :
  forall filename name,
    name_re filename = Some name ->
    Forall (fun a => times a = One /\ captured a = false) name.
Proof.
  induction filename as [|c filename IH]; intros name H.
  - injection H as <-. constructor.
  - cbn [name_re] in H. destruct (name_atom c) as [a|] eqn:Ea; [|discriminate].
    destruct (name_re filename) as [p|]; [|discriminate].
    injection H as <-. constructor; [|now apply IH].
    unfold name_atom in Ea. destruct (c =? 46)%N.
    + injection Ea as <-. now split.
    + destruct (regex_special c); [discriminate|]. injection Ea as <-. now split.
Qed.

Lemma name_re_total :
  forall filename, in_fragment filename = true ->
                   exists name, name_re filename = Some name.
Proof.
  induction filename as [|c filename IH]; intros H; [now exists []|].
  cbn [in_fragment forallb] in H. apply andb_prop in H as [Hc H].
  destruct (IH H) as [name Hn]. cbn [name_re]. rewrite Hn. unfold name_atom.
  destruct (c =? 46)%N; [now eexists|].
  cbn [orb] in Hc. apply negb_true_iff in Hc. rewrite Hc. now eexists.
Qed.

Lemma name_re_literal :
  forall filename, literal_name filename = true ->
                   name_re filename = Some (chars filename).
Proof.
  induction filename as [|c filename IH]; intros H; [reflexivity|].
  cbn [literal_name forallb] in H. apply andb_prop in H as [Hc H].
  cbn [name_re]. rewrite (IH H). unfold name_atom.
  apply negb_true_iff in Hc. rewrite Hc.
  destruct (c =? 46)%N eqn:E; [|reflexivity].
  apply N.eqb_eq in E. subst c. discriminate.
Qed.

(** The shape of the first pattern. *)
Lemma keep_re_shape (filename : str) (keep : pattern) :
  keep_re filename = Some keep ->
  exists name,
    name_re filename = Some name
    /\ keep = chr lbrace :: chr 73%N :: chr 102%N :: chr dq
              :: name ++ [chr dq; Atom not_rbrace Star true; chr rbrace].
Proof.
  unfold keep_re. destruct (name_re filename) as [name|]; [|discriminate].
  intros H. injection H as <-. now exists name.
Qed.

Lemma strip_re_shape :
  strip_re = chr lbrace :: chr 73%N :: chr 102%N :: chr dq
             :: [Atom not_dq Star false; chr dq;
                 Atom not_rbrace Star false; chr rbrace].
Proof. reflexivity. Qed.

(** Atoms taken once, outside the group: they take as many characters as
    there are atoms. *)
Lemma match_ones (name q : pattern) :
  Forall (fun a => times a = One /\ captured a = false) name ->
  forall s g rest,
    match_here (name ++ q) s = Some (g, rest) ->
    exists x s', s = x ++ s' /\ length x = length name
                 /\ match_here q s' = Some (g, rest).
Proof.
  induction 1 as [|a name [Ht Hc] _ IH]; intros s g rest H.
  - now exists [], s.
  - cbn [app match_here] in H. rewrite Ht, Hc in H.
    destruct s as [|c s]; [discriminate|].
    destruct (accepts a c); [|discriminate].
    destruct (match_here (name ++ q) s) as [[g' rest']|] eqn:E; [|discriminate].
    injection H as <- <-. destruct (IH _ _ _ E) as (x & s' & -> & L & Hq).
    exists (c :: x), s'. repeat split; [simpl; now rewrite L|exact Hq].
Qed.

Lemma match_chars (x : str) (q : pattern) (s : str) :
  match_here (chars x ++ q) (x ++ s) = match_here q s.
Proof.
  induction x as [|c x IH]; [reflexivity|].
  cbn [chars map app]. rewrite match_chr, N.eqb_refl. exact IH.
Qed.

Lemma match_chars_inv (x : str) (q : pattern) :
  forall s g rest,
    match_here (chars x ++ q) s = Some (g, rest) ->
    exists s', s = x ++ s' /\ match_here q s' = Some (g, rest).
Proof.
  induction x as [|c x IH]; intros s g rest H; [now exists s|].
  cbn [chars map app] in H. rewrite match_chr in H.
  destruct s as [|y s]; [discriminate|].
  destruct (c =? y)%N eqn:E; [|discriminate]. apply N.eqb_eq in E. subst y.
  destruct (IH _ _ _ H) as (s' & -> & Hq). now exists s'.
Qed.

(** The tail of both patterns: a run without closing brace, then the brace. *)
Lemma body_match_inv (cap : bool) (s g rest : str) :
  match_here [Atom not_rbrace Star cap; chr rbrace] s = Some (g, rest) ->
  exists body, s = body ++ rbrace :: rest /\ lacks rbrace body = true
               /\ g = if cap then body else [].
Proof.
  rewrite match_star.
  destruct (greedy not_rbrace (match_here [chr rbrace]) s)
    as [[run [g' rest']]|] eqn:E; [|discriminate].
  intros H. injection H as <- <-.
  apply greedy_sound in E as [Hrun (s' & -> & E)].
  rewrite match_chr in E. destruct s' as [|y s']; [discriminate|].
  destruct (rbrace =? y)%N eqn:Ey; [|discriminate].
  apply N.eqb_eq in Ey. subst y. injection E as <- <-.
  exists run. now repeat split.
Qed.

Lemma body_match (cap : bool) (body rest : str) :
  lacks rbrace body = true ->
  match_here [Atom not_rbrace Star cap; chr rbrace] (body ++ rbrace :: rest)
  = Some (if cap then body else [], rest).
Proof.
  intros H. rewrite match_star, greedy_exact; [| |exact H|reflexivity].
  - now rewrite match_chr, N.eqb_refl.
  - intros c s Hc. rewrite match_chr.
    destruct (rbrace =? c)%N eqn:E; [|reflexivity].
    apply N.eqb_eq in E. subst c. discriminate.
Qed.

(** What the first pattern matches: the opener, as many characters as the
    page name has, a double quote, the body up to the next closing brace. *)
Lemma keep_match_inv (filename : str) (keep : pattern) (s g rest : str) :
  keep_re filename = Some keep ->
  match_here keep s = Some (g, rest) ->
  exists x,
    s = lbrace :: lit "If" ++ dq :: x ++ dq :: g ++ rbrace :: rest
    /\ lacks rbrace g = true /\ length x = length filename.
Proof.
  intros Hk H. destruct (keep_re_shape _ _ Hk) as (name & Hn & ->).
  rewrite match_chr in H. destruct s as [|c0 s]; [discriminate|].
  destruct (lbrace =? c0)%N eqn:E0; [|discriminate].
  apply N.eqb_eq in E0. subst c0.
  rewrite match_chr in H. destruct s as [|c1 s]; [discriminate|].
  destruct (73 =? c1)%N eqn:E1; [|discriminate].
  apply N.eqb_eq in E1. subst c1.
  rewrite match_chr in H. destruct s as [|c2 s]; [discriminate|].
  destruct (102 =? c2)%N eqn:E2; [|discriminate].
  apply N.eqb_eq in E2. subst c2.
  rewrite match_chr in H. destruct s as [|c3 s]; [discriminate|].
  destruct (dq =? c3)%N eqn:E3; [|discriminate].
  apply N.eqb_eq in E3. subst c3.
  apply match_ones in H as (x & s' & -> & L & H);
    [|now apply name_re_ones with filename].
  rewrite match_chr in H. destruct s' as [|c4 s']; [discriminate|].
  destruct (dq =? c4)%N eqn:E4; [|discriminate].
  apply N.eqb_eq in E4. subst c4.
  apply body_match_inv in H as (body & -> & Hb & ->).
  exists x. repeat split; [exact Hb|].
  rewrite L. clear -Hn. revert name Hn.
  induction filename as [|c filename IH]; intros name Hn.
  - now injection Hn as <-.
  - cbn [name_re] in Hn. destruct (name_atom c); [|discriminate].
    destruct (name_re filename) as [p|]; [|discriminate].
    injection Hn as <-. simpl. f_equal. now apply IH.
Qed.

(** A pattern that starts with the opening brace matches only there. *)
Lemma brace_first (q : pattern) (c : char) (s : str) :
  c <> lbrace -> match_here (chr lbrace :: q) (c :: s) = None.
Proof.
  intros H. rewrite match_chr. destruct (lbrace =? c)%N eqn:E; [|reflexivity].
  apply N.eqb_eq in E. congruence.
Qed.

Lemma sub_copy_lacks (q : pattern) (repl : str -> str) (s : str) :
  forall u, lacks lbrace u = true ->
            sub (chr lbrace :: q) repl (u ++ s)
            = u ++ sub (chr lbrace :: q) repl s.
Proof.
  induction u as [|c u IH]; intros H; [reflexivity|].
  rewrite lacks_cons in H. apply andb_prop in H as [Hc H].
  cbn [app]. rewrite sub_copy.
  - f_equal. now apply IH.
  - apply brace_first. intros ->. now rewrite N.eqb_refl in Hc.
Qed.

(** A stretch without [c] that stands before a [c] holds every prefix
    without [c] of the text. *)
Lemma prefix_before_first (c : char) (p g rest r : str) :
  lacks c p = true ->
  g ++ c :: rest = p ++ r ->
  exists r', g = p ++ r'.
Proof.
  intros Hp H. apply app_eq_app in H as [e [[-> _] | [-> H]]].
  - now exists e.
  - destruct e as [|x e].
    + exists []. now rewrite !app_nil_r.
    + injection H as <- _. now rewrite lacks_here in Hp.
Qed.

Lemma opens_tag_prefix (s : str) :
  opens_tag s ->
  exists p r, s = p ++ r /\ lacks lbrace p = true /\ lacks rbrace p = true
              /\ forall r', opens_tag (p ++ r').
Proof.
  intros (name & rest & -> & Hq & Hl & Hr).
  exists (lit "If" ++ [dq] ++ name ++ [dq]), rest. repeat split.
  - now rewrite <- !app_assoc.
  - now rewrite !lacks_app, Hl.
  - now rewrite !lacks_app, Hr.
  - intros r'. exists name, r'. repeat split; try assumption.
    now rewrite <- !app_assoc.
Qed.

(** Openers stay openers when the text behind a stretch without closing
    brace is exchanged. *)
Lemma openers_splice (rest new : str) :
  openers new ->
  forall g, lacks rbrace g = true -> openers (g ++ rbrace :: rest) ->
            openers (g ++ new).
Proof.
  intros Hnew. induction g as [|x g IH]; intros Hg H; [exact Hnew|].
  rewrite lacks_cons in Hg. apply andb_prop in Hg as [_ Hg].
  destruct H as [Hx H]. split; [|now apply IH].
  intros E. destruct (opens_tag_prefix _ (Hx E)) as (p & r & Hs & _ & Hr & Hp).
  destruct (prefix_before_first rbrace p g rest r Hr Hs) as [r' ->].
  rewrite <- app_assoc. apply Hp.
Qed.

Lemma tag_text_assoc (x g rest : str) :
  lbrace :: lit "If" ++ dq :: x ++ dq :: g ++ rbrace :: rest
  = lbrace :: (lit "If" ++ dq :: x ++ dq :: g ++ [rbrace]) ++ rest.
Proof. simpl. repeat (rewrite <- app_assoc; simpl). reflexivity. Qed.

Lemma tag_text_body (x g rest : str) :
  lbrace :: lit "If" ++ dq :: x ++ dq :: g ++ rbrace :: rest
  = (lbrace :: lit "If" ++ dq :: x ++ [dq]) ++ g ++ rbrace :: rest.
Proof. simpl. repeat (rewrite <- app_assoc; simpl). reflexivity. Qed.

(** The first pass keeps the opening braces at openers of tags. *)
Lemma keep_openers (filename : str) (keep : pattern) :
  keep_re filename = Some keep ->
  forall s, openers s -> openers (sub keep (fun body => body) s).
Proof.
  intros Hk s. remember (length s) as n eqn:En. revert s En.
  induction n as [n IH] using lt_wf_ind. intros s En Hs.
  assert (Hnil : match_here keep [] = None).
  { destruct (keep_re_shape _ _ Hk) as (name & _ & ->). apply match_chr. }
  destruct s as [|c s]; [now rewrite sub_nil|].
  destruct (match_here keep (c :: s)) as [[g rest]|] eqn:E.
  - destruct (keep_match_inv _ _ _ _ _ Hk E) as (x & Hx & Hg & _).
    assert (Hsub : sub keep (fun body => body) (c :: s)
                   = g ++ sub keep (fun body => body) rest).
    { rewrite Hx, tag_text_assoc in E. rewrite Hx, tag_text_assoc.
      exact (sub_here keep (fun body : str => body) lbrace _ g rest E Hnil). }
    rewrite Hsub. rewrite Hx, tag_text_body in Hs.
    apply openers_suffix in Hs.
    apply openers_splice with (rest := rest); [|exact Hg|exact Hs].
    apply (IH (length rest)); [|reflexivity|].
    + rewrite En, Hx, tag_text_assoc. cbn [length]. rewrite length_app. lia.
    + change (g ++ rbrace :: rest) with (g ++ [rbrace] ++ rest) in Hs.
      rewrite app_assoc in Hs. now apply openers_suffix in Hs.
  - rewrite sub_copy by exact E. destruct Hs as [Hc Hs]. split.
    + intros Ec. destruct (opens_tag_prefix _ (Hc Ec)) as (p & r & -> & Hl & _ & Hp).
      destruct (keep_re_shape _ _ Hk) as (name & _ & ->).
      rewrite sub_copy_lacks by exact Hl. apply Hp.
    + apply (IH (length s)); [rewrite En; simpl; lia|reflexivity|exact Hs].
Qed.

(** The second pattern matches at every opener that has a closing brace
    behind it: the name up to the next double quote, the body up to the next
    closing brace. *)
Lemma strip_match (name body rest : str) :
  lacks dq name = true -> lacks rbrace body = true ->
  match_here strip_re
    (lbrace :: lit "If" ++ dq :: name ++ dq :: body ++ rbrace :: rest)
  = Some ([], rest).
Proof.
  intros Hn Hb. rewrite strip_re_shape. opener. rewrite match_star.
  rewrite greedy_exact; [| |exact Hn|reflexivity].
  - rewrite match_chr, N.eqb_refl, body_match by exact Hb. reflexivity.
  - intros c s Hc. rewrite match_chr.
    destruct (dq =? c)%N eqn:E; [|reflexivity].
    apply N.eqb_eq in E. subst c. discriminate.
Qed.

Lemma strip_match_inv (s g rest : str) :
  match_here strip_re s = Some (g, rest) ->
  exists m, s = lbrace :: m ++ rbrace :: rest.
Proof.
  intros H.
  assert (H1 : exists s', s = lbrace :: s').
  { rewrite strip_re_shape, match_chr in H. destruct s as [|c s]; [discriminate|].
    destruct (lbrace =? c)%N eqn:E; [|discriminate].
    apply N.eqb_eq in E. subst c. now exists s. }
  destruct H1 as [s' ->].
  change strip_re
    with ((chr lbrace :: chr 73%N :: chr 102%N :: chr dq
           :: [Atom not_dq Star false; chr dq; Atom not_rbrace Star false])
          ++ [chr rbrace]) in H.
  apply match_here_last in H as [m H]. destruct m as [|x m].
  - discriminate.
  - injection H as _ ->. now exists m.
Qed.

(** In a settled text no opening brace has a closing brace behind it. *)
Lemma settled_no_pair (s a m r : str) :
  settled s -> s = a ++ lbrace :: m ++ rbrace :: r -> False.
Proof.
  intros (A & B & -> & HA & HB) H.
  apply app_eq_app in H as [e [[-> H] | [-> H]]].
  - destruct e as [|y e].
    + cbn [app] in H. subst B.
      change (lbrace :: m ++ rbrace :: r) with ((lbrace :: m) ++ rbrace :: r) in HB.
      now rewrite lacks_here in HB.
    + injection H as <- _. now rewrite lacks_here in HA.
  - subst B. change (e ++ lbrace :: m ++ rbrace :: r)
      with (e ++ (lbrace :: m) ++ rbrace :: r) in HB.
    rewrite app_assoc in HB. now rewrite lacks_here in HB.
Qed.

(** A pattern whose matches start with [{] and hold a [}] leaves a settled
    text as it is. *)
Lemma settled_fixed (p : pattern) (repl : str -> str) (s : str) :
  (forall b g rest, match_here p b = Some (g, rest) ->
                    exists m r, b = lbrace :: m ++ rbrace :: r) ->
  settled s -> sub p repl s = s.
Proof.
  intros Hp Hs. apply sub_no_match. intros a b ->.
  destruct (match_here p b) as [[g rest]|] eqn:E; [|reflexivity].
  exfalso. destruct (Hp _ _ _ E) as (m & r & ->).
  now apply (settled_no_pair _ a m r Hs).
Qed.

Lemma keep_fixed (filename : str) (keep : pattern) (s : str) :
  keep_re filename = Some keep -> settled s ->
  sub keep (fun body => body) s = s.
Proof.
  intros Hk. apply settled_fixed. intros b g rest H.
  destruct (keep_match_inv _ _ _ _ _ Hk H) as (x & -> & _).
  rewrite tag_text_body. cbn [app].
  exists (lit "If" ++ dq :: x ++ dq :: g), rest.
  f_equal. simpl. repeat (rewrite <- app_assoc; simpl). reflexivity.
Qed.

Lemma strip_fixed (s : str) :
  settled s -> sub strip_re (fun _ => []) s = s.
Proof.
  apply settled_fixed. intros b g rest H.
  destruct (strip_match_inv _ _ _ H) as [m ->]. now exists m, rest.
Qed.

(** After the second pass no opening brace has a closing brace behind it. *)
Lemma strip_settles :
  forall s, openers s -> settled (sub strip_re (fun _ => []) s).
Proof.
  intros s. remember (length s) as n eqn:En. revert s En.
  induction n as [n IH] using lt_wf_ind. intros s En Hs.
  destruct s as [|c s]; [now exists [], []|].
  destruct (N.eq_dec c lbrace) as [->|Hc].
  - destruct Hs as [Ho Hs]. destruct (Ho eq_refl) as (name & r & Hr & Hq & Hl & Hrb).
    destruct (lacks_or_first rbrace r) as [Hno | (body & rest & -> & Hb)].
    + assert (Hall : lacks rbrace (lbrace :: s) = true)
        by (rewrite Hr, lacks_cons, !lacks_app, Hrb, Hno; reflexivity).
      rewrite sub_no_match.
      * exists [], (lbrace :: s). now repeat split.
      * intros a b Hab.
        destruct (match_here strip_re b) as [[g rest]|] eqn:E; [|reflexivity].
        exfalso. destruct (strip_match_inv _ _ _ E) as [m ->].
        rewrite Hab in Hall.
        change (a ++ lbrace :: m ++ rbrace :: rest)
          with (a ++ (lbrace :: m) ++ rbrace :: rest) in Hall.
        rewrite app_assoc in Hall. now rewrite lacks_here in Hall.
    + assert (E : lbrace :: s
                  = lbrace :: (lit "If" ++ dq :: name ++ dq :: body ++ [rbrace])
                    ++ rest)
        by (rewrite Hr, <- tag_text_assoc; simpl;
            repeat (rewrite <- app_assoc; simpl); reflexivity).
      rewrite E.
      rewrite (sub_here strip_re (fun _ => []) lbrace _ [] rest).
      * apply (IH (length rest)); [|reflexivity|].
        -- rewrite En, E. cbn [length]. rewrite length_app. lia.
        -- apply (openers_suffix
                    (lit "If" ++ dq :: name ++ dq :: body ++ [rbrace]) rest).
           injection E as E. rewrite E in Hs. exact Hs.
      * rewrite <- tag_text_assoc. now apply strip_match.
      * reflexivity.
  - rewrite sub_copy by (rewrite strip_re_shape; now apply brace_first).
    destruct Hs as [_ Hs].
    destruct (IH (length s)) with (s := s) as (a & b & Hab & Ha & Hb);
      [rewrite En; simpl; lia|reflexivity|exact Hs|].
    exists (c :: a), b. rewrite Hab. repeat split; [|exact Hb].
    rewrite lacks_cons, Ha, andb_true_r. apply negb_true_iff.
    now apply N.eqb_neq.
Qed.

Lemma lacks_calm (s : str) : lacks lbrace s = true -> calm s = true.
Proof.
  induction s as [|c s IH]; [reflexivity|]. rewrite lacks_cons. intros H.
  apply andb_prop in H as [Hc H]. cbn [calm].
  apply negb_true_iff in Hc. now rewrite Hc, IH.
Qed.

Lemma calm_app (a b : str) :
  calm a = true -> calm b = true -> calm (a ++ b) = true.
Proof.
  induction a as [|c a IH]; intros Ha Hb; [exact Hb|].
  cbn [calm] in Ha. apply andb_prop in Ha as [Hc Ha].
  cbn [app calm]. rewrite (IH Ha Hb), andb_true_r.
  destruct (c =? lbrace)%N; [|reflexivity].
  destruct a as [|x a]; [discriminate|exact Hc].
Qed.

(** A calm text holds no opener of a tag. *)
Lemma calm_no_opener (a b : str) : calm (a ++ lbrace :: 73%N :: b) = false.
Proof.
  induction a as [|c a IH].
  - reflexivity.
  - cbn [app calm]. rewrite IH. apply andb_false_r.
Qed.

(** Both patterns start with [{I]: they copy a calm stretch. *)
Lemma sub_copy_calm (q : pattern) (repl : str -> str) (s : str) :
  forall u, calm u = true ->
            sub (chr lbrace :: chr 73%N :: q) repl (u ++ s)
            = u ++ sub (chr lbrace :: chr 73%N :: q) repl s.
Proof.
  induction u as [|c u IH]; intros H; [reflexivity|].
  cbn [calm] in H. apply andb_prop in H as [Hc H].
  cbn [app]. rewrite sub_copy; [f_equal; now apply IH|].
  rewrite match_chr. destruct (lbrace =? c)%N eqn:E; [|reflexivity].
  rewrite N.eqb_sym, E in Hc. destruct u as [|x u]; [discriminate|].
  cbn [app]. rewrite match_chr. apply negb_true_iff in Hc.
  now rewrite N.eqb_sym, Hc.
Qed.

Lemma calm_fixed (q : pattern) (repl : str -> str) (s : str) :
  calm s = true -> sub (chr lbrace :: chr 73%N :: q) repl s = s.
Proof.
  intros H. rewrite <- (app_nil_r s) at 1.
  rewrite sub_copy_calm by exact H.
  rewrite sub_nil by apply match_chr. apply app_nil_r.
Qed.

End Tags.

(** * Tags and page names compared as strings *)

Section ByName.

Lemma str_eqb_eq (a b : str) : str_eqb a b = true <-> a = b.
Proof.
  revert b. induction a as [|x a IH]; intros [|y b]; split; intros H;
    try discriminate; try reflexivity.
  - simpl in H. apply andb_prop in H as [Hx H]. apply N.eqb_eq in Hx.
    apply IH in H. now subst.
  - injection H as -> ->. apply str_eqb_refl.
Qed.

Variable filename : str.
Variable keep : pattern.
Hypothesis Hliteral : literal_name filename = true.
Hypothesis Hquote : lacks dq filename = true.
Hypothesis Hkeep : keep_re filename = Some keep.

Lemma keep_literal_shape :
  keep = chr lbrace :: chr 73%N :: chr 102%N :: chr dq
         :: chars filename ++ [chr dq; Atom not_rbrace Star true; chr rbrace].
Proof.
  destruct (keep_re_shape _ _ Hkeep) as (name & Hn & ->).
  rewrite (name_re_literal _ Hliteral) in Hn. now injection Hn as <-.
Qed.

(** The first pattern matches at a tag of this page, with the body as
    group 1. *)
Lemma keep_match_own (body rest : str) :
  lacks rbrace body = true ->
  match_here keep (if_tag filename body ++ rest) = Some (body, rest).
Proof.
  intros Hb. rewrite keep_literal_shape, if_tag_app. opener.
  rewrite match_chars, match_chr, N.eqb_refl. now apply body_match.
Qed.

(** It does not match at a tag of another name. *)
Lemma keep_match_other (name body rest : str) :
  lacks dq name = true -> name <> filename ->
  match_here keep (if_tag name body ++ rest) = None.
Proof.
  intros Hn Hne.
  destruct (match_here keep (if_tag name body ++ rest)) as [[g r]|] eqn:E;
    [|reflexivity].
  exfalso. apply Hne. rewrite keep_literal_shape, if_tag_app in E.
  opener_in E.
  apply match_chars_inv in E as (s' & Hs & E).
  rewrite match_chr in E. destruct s' as [|y s']; [discriminate|].
  destruct (dq =? y)%N eqn:Ey; [|discriminate]. apply N.eqb_eq in Ey. subst y.
  now destruct (first_unique dq name filename _ _ Hn Hquote Hs).
Qed.

Lemma keep_nil : match_here keep [] = None.
Proof. rewrite keep_literal_shape. apply match_chr. Qed.

(** The two passes on a text of plain stretches and well-formed tags. *)
Lemma two_passes_by_name (ps : list piece) :
  well_formed ps = true ->
  sub strip_re (fun _ => []) (sub keep (fun body => body) (flatten ps))
  = resolved filename ps.
Proof.
  induction ps as [|p ps IH]; intros H.
  - cbn [flatten flat_map resolved]. rewrite sub_nil by apply keep_nil.
    now apply sub_nil.
  - cbn [well_formed forallb] in H. apply andb_prop in H as [Hp H].
    specialize (IH H). cbn [flatten flat_map resolved].
    change (flat_map piece_text ps) with (flatten ps).
    change (flat_map (resolved_piece filename) ps) with (resolved filename ps).
    destruct p as [text|name body];
      cbn [piece_text well_formed_piece] in *; unfold well_formed_tag in *.
    + rewrite keep_literal_shape, sub_copy_calm by exact Hp.
      rewrite strip_re_shape, sub_copy_calm by exact Hp.
      rewrite <- keep_literal_shape, <- strip_re_shape. cbn [resolved_piece].
      now rewrite IH.
    + apply andb_prop in Hp as [Hp Hrb]. apply andb_prop in Hp as [Hp Hlb].
      apply andb_prop in Hp as [Hp Hr]. apply andb_prop in Hp as [Hq Hl].
      cbn [resolved_piece]. destruct (str_eqb name filename) eqn:En.
      * apply str_eqb_eq in En. subst name.
        assert (E := keep_match_own body (flatten ps) Hrb).
        rewrite if_tag_app, tag_text_assoc in E.
        rewrite if_tag_app, tag_text_assoc.
        rewrite (sub_here keep (fun b : str => b) lbrace _ body _ E keep_nil).
        rewrite strip_re_shape, sub_copy_lacks by exact Hlb.
        rewrite <- strip_re_shape. now rewrite IH.
      * assert (Hne : name <> filename)
          by (intros Heq; apply str_eqb_eq in Heq; congruence).
        assert (Htag : if_tag name body ++ flatten ps
                       = lbrace :: (lit "If" ++ dq :: name ++ dq :: body
                                    ++ [rbrace])
                         ++ flatten ps)
          by now rewrite if_tag_app, tag_text_assoc.
        assert (Hno := keep_match_other name body (flatten ps) Hq Hne).
        rewrite Htag in Hno |- *. rewrite sub_copy by exact Hno.
        rewrite keep_literal_shape, sub_copy_lacks
          by (cbn [lit list_ascii_of_string map app];
              rewrite !lacks_cons, !lacks_app, !lacks_cons, !lacks_app, Hl, Hlb;
              reflexivity).
        rewrite <- keep_literal_shape.
        rewrite (sub_here strip_re (fun _ => []) lbrace _ [] _).
        -- exact IH.
        -- rewrite <- tag_text_assoc. now apply strip_match.
        -- reflexivity.
Qed.

Lemma resolved_calm (ps : list piece) :
  well_formed ps = true -> calm (resolved filename ps) = true.
Proof.
  induction ps as [|p ps IH]; intros H; [reflexivity|].
  cbn [well_formed forallb] in H. apply andb_prop in H as [Hp H].
  cbn [resolved flat_map]. apply calm_app; [|now apply IH].
  destruct p as [text|name body]; cbn [resolved_piece well_formed_piece] in *.
  - exact Hp.
  - destruct (str_eqb name filename); [|reflexivity].
    unfold well_formed_tag in Hp. apply andb_prop in Hp as [Hp _].
    apply andb_prop in Hp as [_ Hlb]. now apply lacks_calm.
Qed.

(** On a calm text the two passes change nothing. *)
Lemma two_passes_calm (page : str) :
  calm page = true ->
  sub strip_re (fun _ => []) (sub keep (fun body => body) page) = page.
Proof.
  intros H. rewrite keep_literal_shape, calm_fixed by exact H.
  rewrite strip_re_shape. now apply calm_fixed.
Qed.

End ByName.

(** C3, as the code has it.  For a page name that stands for itself in a
    pattern (no special character, no double quote) and a text of
    well-formed tags and of plain stretches in which no opening brace is
    followed by [I], the two passes put the body in the place of every tag
    whose name is the page name and delete every other tag; so for the page
    [home] the tag named [home] around [Welcome!] comes to [Welcome!] and
    the tag named [other] to the empty text. *)
Theorem resolve_ifs_by_name :
  (forall filename ps,
      literal_name filename = true ->
      lacks dq filename = true ->
      well_formed ps = true ->
      resolve_ifs filename (flatten ps) = Ok (resolved filename ps))
  /\ resolve_ifs (lit "home") (if_tag (lit "home") (lit "Welcome!"))
     = Ok (lit "Welcome!")
  /\ resolve_ifs (lit "home") (if_tag (lit "other") (lit "Secret")) = Ok [].
Proof.
  split; [|split; vm_compute; reflexivity].
  intros filename ps Hl Hq Hw. unfold resolve_ifs.
  destruct (keep_re filename) as [keep|] eqn:Hk.
  - f_equal. now apply two_passes_by_name.
  - unfold keep_re in Hk. now rewrite (name_re_literal _ Hl) in Hk.
Qed.

Lemma resolve_ifs_by_name_witness :
  resolve_ifs (lit "index")
    (flatten [Plain (lit "<style>p { color: red }</style><p>");
              Tag (lit "index") (lit "<b>Home</b>");
              Plain (lit "</p>"); Tag (lit "about") (lit "x")])
  = Ok (lit "<style>p { color: red }</style><p><b>Home</b></p>").
Proof.
  apply (proj1 resolve_ifs_by_name (lit "index")
           [Plain (lit "<style>p { color: red }</style><p>");
            Tag (lit "index") (lit "<b>Home</b>");
            Plain (lit "</p>"); Tag (lit "about") (lit "x")]);
    reflexivity.
Defined.

(** C3, as the claim states it, fails: a tag of another page whose body
    holds a tag of this page is not deleted; the first pass takes the inner
    tag away and with it the closing brace of the outer one. *)
Lemma outer_tag_survives :
  resolve_ifs (lit "home")
    (if_tag (lit "other") (lit "A" ++ lit "{If" ++ [dq] ++ lit "home" ++ [dq] ++ lit "B"))
  = Ok (lit "{If" ++ [dq] ++ lit "other" ++ [dq] ++ lit "AB")
  /\ lacks rbrace (lit "A" ++ lit "{If" ++ [dq] ++ lit "home" ++ [dq] ++ lit "B")
     = true
  /\ str_eqb (lit "other") (lit "home") = false.
Proof. repeat split; vm_compute; reflexivity. Qed.

(** The page name goes into the first pattern without [re.escape]: the dot
    of the page name [a.b] matches any character, and the tag named [axb]
    is kept as if it were a tag of this page. *)
Lemma dot_of_page_name_is_wildcard :
  page_name (lit "a.b.html") = Some (lit "a.b")
  /\ resolve_ifs (lit "a.b") (if_tag (lit "axb") (lit "Secret"))
     = Ok (lit "Secret")
  /\ resolved (lit "a.b") [Tag (lit "axb") (lit "Secret")] = [].
Proof. repeat split; vm_compute; reflexivity. Qed.

(** * Resolving twice *)

(** C7, as the code has it.  For a text whose opening braces are those of
    well-formed tags, and a page name of ordinary characters and dots, the
    two passes return a text in which no opening brace has a closing brace
    behind it: no tag is left, and the two passes return this text as it
    is.  The same holds when the plain text has braces of its own, none of
    them followed by [I], and the page name stands for itself in the
    pattern: the result is calm, no tag is left, and resolving it again
    returns it as it is. *)
Theorem resolve_ifs_settles :
  (forall filename ps,
      in_fragment filename = true ->
      only_tags ps = true ->
      exists page,
        resolve_ifs filename (flatten ps) = Ok page
        /\ settled page
        /\ (forall before name body behind,
               page <> before ++ if_tag name body ++ behind)
        /\ resolve_ifs filename page = Ok page)
  /\ (forall filename ps,
         literal_name filename = true ->
         lacks dq filename = true ->
         well_formed ps = true ->
         exists page,
           resolve_ifs filename (flatten ps) = Ok page
           /\ calm page = true
           /\ (forall before name body behind,
                  page <> before ++ if_tag name body ++ behind)
           /\ resolve_ifs filename page = Ok page).
Proof.
  split.
  - intros filename ps Hf Hw. destruct (name_re_total _ Hf) as [name Hn].
    assert (Hk : exists keep, keep_re filename = Some keep)
      by (unfold keep_re; rewrite Hn; now eexists).
    destruct Hk as [keep Hk]. unfold resolve_ifs. rewrite Hk.
    set (page := sub strip_re (fun _ => [])
                   (sub keep (fun body => body) (flatten ps))).
    assert (Hs : settled page)
      by now apply strip_settles, (keep_openers filename), only_tags_openers.
    exists page. repeat split.
    + exact Hs.
    + intros before tname body behind E. rewrite if_tag_app in E.
      apply (settled_no_pair page before
               (lit "If" ++ dq :: tname ++ dq :: body) behind Hs).
      rewrite E. f_equal. f_equal. simpl.
      repeat (rewrite <- app_assoc; simpl). reflexivity.
    + now rewrite (keep_fixed filename keep page Hk Hs), strip_fixed.
  - intros filename ps Hl Hq Hw.
    assert (Hk : exists keep, keep_re filename = Some keep)
      by (unfold keep_re; rewrite (name_re_literal _ Hl); now eexists).
    destruct Hk as [keep Hk]. unfold resolve_ifs. rewrite Hk.
    rewrite (two_passes_by_name filename keep Hl Hq Hk ps Hw).
    assert (Hc := resolved_calm filename ps Hw).
    exists (resolved filename ps). repeat split.
    + exact Hc.
    + intros before tname body behind E. rewrite E, if_tag_app in Hc.
      cbn [lit list_ascii_of_string map app] in Hc.
      change (N_of_ascii "I") with 73%N in Hc.
      now rewrite calm_no_opener in Hc.
    + now rewrite (two_passes_calm filename keep Hl Hk _ Hc).
Qed.

Lemma resolve_ifs_settles_witness :
  (exists page,
      resolve_ifs (lit "a.b")
        (flatten [Plain (lit "<p>"); Tag (lit "a.b") (lit "<b>Home</b>");
                  Plain (lit "</p>"); Tag (lit "about") (lit "x")]) = Ok page
      /\ settled page
      /\ (forall before name body behind,
             page <> before ++ if_tag name body ++ behind)
      /\ resolve_ifs (lit "a.b") page = Ok page)
  /\ (exists page,
         resolve_ifs (lit "index")
           (flatten [Plain (lit "<style>p { color: red }</style>");
                     Tag (lit "index") (lit "<b>Home</b>");
                     Tag (lit "about") (lit "x")]) = Ok page
         /\ calm page = true
         /\ (forall before name body behind,
                page <> before ++ if_tag name body ++ behind)
         /\ resolve_ifs (lit "index") page = Ok page).
Proof.
  split.
  - apply (proj1 resolve_ifs_settles (lit "a.b")
             [Plain (lit "<p>"); Tag (lit "a.b") (lit "<b>Home</b>");
              Plain (lit "</p>"); Tag (lit "about") (lit "x")]);
      reflexivity.
  - apply (proj2 resolve_ifs_settles (lit "index")
             [Plain (lit "<style>p { color: red }</style>");
              Tag (lit "index") (lit "<b>Home</b>");
              Tag (lit "about") (lit "x")]);
      reflexivity.
Defined.

(** C7, as the claim states it, fails: a tag that stands inside the opener
    of another leaves, once deleted, a tag that the next application
    deletes. *)
Lemma resolve_ifs_twice_differs :
  resolve_ifs (lit "zzz")
    (lit "{I" ++ if_tag (lit "a") (lit "x") ++ lit "f" ++ [dq] ++ lit "b"
     ++ [dq] ++ lit "y}")
  = Ok (if_tag (lit "b") (lit "y"))
  /\ resolve_ifs (lit "zzz") (if_tag (lit "b") (lit "y")) = Ok []
  /\ if_tag (lit "b") (lit "y") <> [].
Proof.
  split; [vm_compute; reflexivity|].
  split; [vm_compute; reflexivity|discriminate].
Qed.

(** Why the second part asks for a page name that stands for itself: the
    dots of the page name [a.b. c] reach from the first tag into the plain
    text, whose brace then completes the opener of a new tag. *)
Lemma dots_with_plain_braces :
  well_formed
    [Tag (lit "a") (lit "b"); Plain (lit " c" ++ [dq] ++ lit "d{}I");
     Tag (lit "a2") (lit "x");
     Plain (lit "f" ++ [dq] ++ lit "b" ++ [dq] ++ lit "y}")] = true
  /\ resolve_ifs (lit "a.b. c")
       (flatten
          [Tag (lit "a") (lit "b"); Plain (lit " c" ++ [dq] ++ lit "d{}I");
           Tag (lit "a2") (lit "x");
           Plain (lit "f" ++ [dq] ++ lit "b" ++ [dq] ++ lit "y}")])
     = Ok (lit "d" ++ if_tag (lit "b") (lit "y"))
  /\ resolve_ifs (lit "a.b. c") (lit "d" ++ if_tag (lit "b") (lit "y"))
     = Ok (lit "d").
Proof. repeat split; vm_compute; reflexivity. Qed.

(** * The templates folder and the paths of a build *)

Section Paths.

Lemma firstn_html (filename : str) :
  firstn (length (filename ++ lit ".html") - 5) (filename ++ lit ".html")
  = filename.
Proof.
  rewrite length_app. change (length (lit ".html")) with 5.
  replace (length filename + 5 - 5) with (length filename + 0) by lia.
  rewrite firstn_app_2. cbn [firstn]. apply app_nil_r.
Qed.

(** The entries that the loop takes, and the page name it gives them. *)
Lemma page_name_some (entry filename : str) :
  page_name entry = Some filename
  <-> entry = filename ++ lit ".html" /\ filename <> lit "base".
Proof.
  unfold page_name. split.
  - destruct (str_eqb entry (lit "base.html")) eqn:Eb; [discriminate|].
    destruct (endswith entry (lit ".html")) eqn:Ee; [|discriminate].
    cbn [negb orb]. intros H. injection H as <-.
    apply endswith_inv in Ee as [p ->]. rewrite firstn_html.
    split; [reflexivity|]. intros ->.
    now rewrite str_eqb_refl in Eb.
  - intros [-> Hne]. rewrite endswith_app. cbn [negb]. rewrite orb_false_r.
    destruct (str_eqb (filename ++ lit ".html") (lit "base.html")) eqn:Eb.
    + exfalso. apply Hne. apply str_eqb_eq in Eb.
      change (lit "base.html") with (lit "base" ++ lit ".html") in Eb.
      now apply app_inv_tail in Eb.
    + now rewrite firstn_html.
Qed.

Lemma page_name_none (entry : str) :
  page_name entry = None
  <-> entry = lit "base.html" \/ endswith entry (lit ".html") = false.
Proof.
  unfold page_name.
  destruct (str_eqb entry (lit "base.html")) eqn:Eb.
  - apply str_eqb_eq in Eb. split; [now left|reflexivity].
  - destruct (endswith entry (lit ".html")) eqn:Ee; cbn [negb orb].
    + split; [discriminate|]. intros [-> | H]; [|discriminate].
      now rewrite str_eqb_refl in Eb.
    + split; [now right|reflexivity].
Qed.

Lemma page_name_lacks (c : char) (entry filename : str) :
  page_name entry = Some filename -> lacks c entry = true ->
  lacks c filename = true.
Proof.
  intros H L. apply page_name_some in H as [-> _].
  rewrite lacks_app in L. now apply andb_prop in L as [L _].
Qed.

Lemma out_path_cons (lang_code filename : str) :
  out_path lang_code filename
  = lit "../../" ++ lang_code ++ slash :: filename ++ lit ".html".
Proof. reflexivity. Qed.

(** Two rounds with different codes or different pages write different
    files. *)
Lemma out_path_inj (c c' f f' : str) :
  lacks slash c = true -> lacks slash c' = true ->
  out_path c f = out_path c' f' -> c = c' /\ f = f'.
Proof.
  intros Hc Hc' H. rewrite !out_path_cons in H. apply app_inv_head in H.
  destruct (first_unique slash c c' _ _ Hc Hc' H) as [-> H'].
  split; [reflexivity|]. now apply app_inv_tail in H'.
Qed.

Lemma root_path_inj (f f' : str) : root_path f = root_path f' -> f = f'.
Proof.
  unfold root_path. intros H. apply app_inv_head in H.
  now apply app_inv_tail in H.
Qed.

(** The copy at the root is no file of a language folder. *)
Lemma root_not_out (c f f' : str) :
  lacks slash f = true -> root_path f <> out_path c f'.
Proof.
  intros Hf H. rewrite out_path_cons in H. unfold root_path in H.
  apply app_inv_head in H.
  assert (L : lacks slash (f ++ lit ".html") = true)
    by (rewrite lacks_app, Hf; reflexivity).
  rewrite H in L. now rewrite lacks_here in L.
Qed.

Lemma source_template (filename : str) :
  source_path (template_path filename) = true.
Proof. reflexivity. Qed.

Lemma source_lang (lang_code : str) : source_path (lang_path lang_code) = true.
Proof. reflexivity. Qed.

Lemma out_not_source (lang_code filename : str) :
  In lang_code LANGUAGES -> source_path (out_path lang_code filename) = false.
Proof.
  intros [<- | [<- | [<- | [<- | []]]]]; reflexivity.
Qed.

Lemma root_not_source (filename : str) :
  lacks slash filename = true -> source_path (root_path filename) = false.
Proof.
  intros L. unfold source_path, root_path.
  destruct (startswith (lit "../../" ++ filename ++ lit ".html")
              (lit "../../res/")) eqn:E; [|reflexivity].
  exfalso. apply startswith_inv in E as [r E].
  change (lit "../../res/") with (lit "../../" ++ lit "res" ++ [slash]) in E.
  rewrite <- !app_assoc in E. apply app_inv_head in E.
  assert (L' : lacks slash (filename ++ lit ".html") = true)
    by (rewrite lacks_app, L; reflexivity).
  rewrite E in L'. cbn [app] in L'.
  change (lit "res" ++ slash :: r) with (lit "res" ++ slash :: r) in L'.
  now rewrite lacks_here in L'.
Qed.

Lemma languages_lack_slash (lang_code : str) :
  In lang_code LANGUAGES -> lacks slash lang_code = true.
Proof. intros [<- | [<- | [<- | [<- | []]]]]; reflexivity. Qed.

End Paths.

(** * What a build reads and writes *)

Section Build.

Variable json_load : str -> option dict.
Variable base : str.

(** Saving, case by case: the folder of the language refuses the file;
    the page cannot be encoded; the page is written, and for the default
    language the root refuses the copy or takes it. *)
Lemma save_unfold (lang_code filename page : str) (w : world) :
  save lang_code filename page w
  = if refuses w (out_path lang_code filename)
    then (Raise (OSError (out_path lang_code filename)), w)
    else if encodes page
         then if str_eqb lang_code DEFAULT_LANGUAGE
              then if refuses w (root_path filename)
                   then (Raise (OSError (root_path filename)),
                         put (out_path lang_code filename) page w)
                   else (Ok tt,
                         put (root_path filename) page
                           (put (out_path lang_code filename) page w))
              else (Ok tt, put (out_path lang_code filename) page w)
         else (Raise (UnicodeEncodeError (out_path lang_code filename)),
               put (out_path lang_code filename) [] w).
Proof.
  unfold save, write.
  destruct (refuses w (out_path lang_code filename)); [reflexivity|].
  destruct (encodes page) eqn:E; [|reflexivity].
  destruct (str_eqb lang_code DEFAULT_LANGUAGE); [|reflexivity].
  reflexivity.
Qed.

Lemma save_status (lang_code filename page : str) (w : world) :
  fst (save lang_code filename page w)
  = if refuses w (out_path lang_code filename)
    then Raise (OSError (out_path lang_code filename))
    else if encodes page
         then if str_eqb lang_code DEFAULT_LANGUAGE
                 && refuses w (root_path filename)
              then Raise (OSError (root_path filename))
              else Ok tt
         else Raise (UnicodeEncodeError (out_path lang_code filename)).
Proof.
  rewrite save_unfold.
  destruct (refuses w (out_path lang_code filename)); [reflexivity|].
  destruct (encodes page); [|reflexivity].
  destruct (str_eqb lang_code DEFAULT_LANGUAGE); [|reflexivity].
  now destruct (refuses w (root_path filename)).
Qed.

Lemma save_files (lang_code filename page : str) (w : world) (path : str) :
  files (snd (save lang_code filename page w)) path
  = if refuses w (out_path lang_code filename)
    then files w path
    else if str_eqb path (out_path lang_code filename)
         then Some (if encodes page then page else [])
         else if encodes page && str_eqb lang_code DEFAULT_LANGUAGE
                 && negb (refuses w (root_path filename))
                 && str_eqb path (root_path filename)
              then Some page
              else files w path.
Proof.
  rewrite save_unfold.
  destruct (refuses w (out_path lang_code filename)); [reflexivity|].
  destruct (encodes page); cbn [andb]; [|reflexivity].
  destruct (str_eqb lang_code DEFAULT_LANGUAGE); cbn [andb];
    [|cbn [snd put files];
      now destruct (str_eqb path (out_path lang_code filename))].
  destruct (refuses w (root_path filename)); cbn [negb andb snd put files];
    [now destruct (str_eqb path (out_path lang_code filename))|].
  destruct (str_eqb path (root_path filename));
    now destruct (str_eqb path (out_path lang_code filename)).
Qed.

Lemma save_stdout (lang_code filename page : str) (w : world) :
  stdout (snd (save lang_code filename page w)) = stdout w.
Proof.
  rewrite save_unfold.
  destruct (refuses w (out_path lang_code filename)); [reflexivity|].
  destruct (encodes page); [|reflexivity].
  destruct (str_eqb lang_code DEFAULT_LANGUAGE); [|reflexivity].
  now destruct (refuses w (root_path filename)).
Qed.

Lemma save_refuses (lang_code filename page : str) (w : world) :
  refuses (snd (save lang_code filename page w)) = refuses w.
Proof.
  rewrite save_unfold.
  destruct (refuses w (out_path lang_code filename)); [reflexivity|].
  destruct (encodes page); [|reflexivity].
  destruct (str_eqb lang_code DEFAULT_LANGUAGE); [|reflexivity].
  now destruct (refuses w (root_path filename)).
Qed.

Lemma build_page_unfold (filename lang_code : str) (w : world) :
  build_page json_load base filename lang_code w
  = match page_outcome json_load base filename lang_code w with
    | Raise e => (Raise e, print (lit "  " ++ lang_code) w)
    | Ok page => save lang_code filename page (print (lit "  " ++ lang_code) w)
    end.
Proof.
  unfold build_page, page_outcome, read. cbn [print files].
  destruct (files w (template_path filename)) as [content|]; [|reflexivity].
  destruct (files w (lang_path lang_code)) as [text|]; [|reflexivity].
  destruct (json_load text) as [lang|]; reflexivity.
Qed.

Lemma page_outcome_ok (filename lang_code page : str) (w : world) :
  page_outcome json_load base filename lang_code w = Ok page
  <-> exists content text lang,
        files w (template_path filename) = Some content
        /\ files w (lang_path lang_code) = Some text
        /\ json_load text = Some lang
        /\ render base content filename lang = Ok page.
Proof.
  unfold page_outcome. split.
  - destruct (files w (template_path filename)) as [content|]; [|discriminate].
    destruct (files w (lang_path lang_code)) as [text|]; [|discriminate].
    destruct (json_load text) as [lang|] eqn:Ej; [|discriminate].
    intros H. now exists content, text, lang.
  - intros (content & text & lang & -> & -> & -> & H). exact H.
Qed.

Lemma page_outcome_agree (filename lang_code : str) (w1 w2 : world) :
  agree_sources w1 w2 ->
  page_outcome json_load base filename lang_code w1
  = page_outcome json_load base filename lang_code w2.
Proof.
  intros H. unfold page_outcome.
  now rewrite (H _ (source_template filename)), (H _ (source_lang lang_code)).
Qed.

(** One round prints its line, whatever comes of it. *)
Lemma build_page_stdout (filename lang_code : str) (w : world) :
  stdout (snd (build_page json_load base filename lang_code w))
  = stdout w ++ [lit "  " ++ lang_code].
Proof.
  rewrite build_page_unfold.
  destruct (page_outcome json_load base filename lang_code w); [|reflexivity].
  now rewrite save_stdout.
Qed.

(** One round makes no folder and changes no permission. *)
Lemma build_page_refuses (filename lang_code : str) (w : world) :
  refuses (snd (build_page json_load base filename lang_code w)) = refuses w.
Proof.
  rewrite build_page_unfold.
  destruct (page_outcome json_load base filename lang_code w); [|reflexivity].
  now rewrite save_refuses.
Qed.

(** The files after one round. *)
Lemma build_page_files (filename lang_code : str) (w : world) (path : str) :
  files (snd (build_page json_load base filename lang_code w)) path
  = match page_outcome json_load base filename lang_code w with
    | Raise _ => files w path
    | Ok page =>
        if refuses w (out_path lang_code filename)
        then files w path
        else if str_eqb path (out_path lang_code filename)
             then Some (if encodes page then page else [])
             else if encodes page && str_eqb lang_code DEFAULT_LANGUAGE
                     && negb (refuses w (root_path filename))
                     && str_eqb path (root_path filename)
                  then Some page
                  else files w path
    end.
Proof.
  rewrite build_page_unfold.
  destruct (page_outcome json_load base filename lang_code w) as [page|e];
    [|reflexivity].
  now rewrite save_files.
Qed.

Lemma build_page_status (filename lang_code : str) (w : world) :
  fst (build_page json_load base filename lang_code w)
  = match page_outcome json_load base filename lang_code w with
    | Raise e => Raise e
    | Ok page =>
        if refuses w (out_path lang_code filename)
        then Raise (OSError (out_path lang_code filename))
        else if encodes page
             then if str_eqb lang_code DEFAULT_LANGUAGE
                     && refuses w (root_path filename)
                  then Raise (OSError (root_path filename))
                  else Ok tt
             else Raise (UnicodeEncodeError (out_path lang_code filename))
    end.
Proof.
  rewrite build_page_unfold.
  destruct (page_outcome json_load base filename lang_code w) as [page|e];
    [|reflexivity].
  now rewrite save_status.
Qed.


Lemma str_eqb_neq (a b : str) : a <> b -> str_eqb a b = false.
Proof.
  intros H. destruct (str_eqb a b) eqn:E; [|reflexivity].
  apply str_eqb_eq in E. contradiction.
Qed.

(** One round leaves every other file as it is. *)
Lemma build_page_frame (filename lang_code : str) (w : world) (path : str) :
  path <> out_path lang_code filename ->
  (path <> root_path filename \/ lang_code <> DEFAULT_LANGUAGE) ->
  files (snd (build_page json_load base filename lang_code w)) path
  = files w path.
Proof.
  intros Ho Hr. rewrite build_page_files.
  destruct (page_outcome json_load base filename lang_code w); [|reflexivity].
  destruct (refuses w (out_path lang_code filename)); [reflexivity|].
  rewrite (str_eqb_neq _ _ Ho).
  destruct Hr as [Hr | Hr]; rewrite (str_eqb_neq _ _ Hr);
    [now rewrite andb_false_r|]. now rewrite andb_false_r.
Qed.


(** Two rounds that read the same, in worlds that refuse the same paths,
    write the same. *)
Lemma build_page_twin (filename lang_code : str) (w1 w2 u1 u2 : world) :
  agree_sources w1 w2 -> agree_outputs u1 u2 -> same_writes w1 w2 u1 u2 ->
  fst (build_page json_load base filename lang_code u1)
  = fst (build_page json_load base filename lang_code u2)
  /\ same_writes w1 w2
       (snd (build_page json_load base filename lang_code u1))
       (snd (build_page json_load base filename lang_code u2)).
Proof.
  intros Ha Hr Hs.
  assert (Hu : agree_sources u1 u2).
  { intros path Hp. destruct (Hs path) as [[-> ->] | H]; [now apply Ha|exact H]. }
  split.
  - now rewrite !build_page_status, (page_outcome_agree _ _ _ _ Hu), !Hr.
  - intros path. rewrite !build_page_files, (page_outcome_agree _ _ _ _ Hu), !Hr.
    destruct (page_outcome json_load base filename lang_code u2) as [page|e];
      [|apply Hs].
    destruct (refuses u2 (out_path lang_code filename)); [apply Hs|].
    destruct (str_eqb path (out_path lang_code filename)); [now right|].
    destruct (encodes page && str_eqb lang_code DEFAULT_LANGUAGE
              && negb (refuses u2 (root_path filename))
              && str_eqb path (root_path filename));
      [now right|apply Hs].
Qed.



(** Around a page name of the fragment, the model follows the script: what
    a round raises is an exception of the script. *)
Lemma render_in_fragment (content filename : str) (lang : dict) :
  in_fragment filename = true ->
  render base content filename lang <> Raise OutsideFragment.
Proof.
  intros H. unfold render.
  destruct (remaining_keys (substituted base content filename lang))
    as [[[pre key] suf]|]; [discriminate|].
  unfold resolve_ifs, keep_re.
  destruct (name_re_total filename H) as [name ->]. discriminate.
Qed.

Lemma page_outcome_in_fragment (filename lang_code : str) (w : world) :
  in_fragment filename = true ->
  page_outcome json_load base filename lang_code w <> Raise OutsideFragment.
Proof.
  intros H. unfold page_outcome.
  destruct (files w (template_path filename)); [|discriminate].
  destruct (files w (lang_path lang_code)) as [text|]; [|discriminate].
  destruct (json_load text); [|discriminate].
  now apply render_in_fragment.
Qed.

Lemma build_page_in_fragment (filename lang_code : str) (w : world) :
  in_fragment filename = true ->
  fst (build_page json_load base filename lang_code w) <> Raise OutsideFragment.
Proof.
  intros H. rewrite build_page_status.
  destruct (page_outcome json_load base filename lang_code w) as [page|e] eqn:E.
  - destruct (refuses w (out_path lang_code filename)); [discriminate|].
    destruct (encodes page); [|discriminate].
    now destruct (str_eqb lang_code DEFAULT_LANGUAGE
                  && refuses w (root_path filename)).
  - intros Heq. injection Heq as ->.
    exact (page_outcome_in_fragment filename lang_code w H E).
Qed.

End Build.

(** * The loops of the script *)

Section Loops.

Variable json_load : str -> option dict.
Variable base : str.

Lemma build_languages_cons (lang_code : str) (rest : list str)
    (filename : str) (w : world) :
  build_languages json_load (lang_code :: rest) base filename w
  = match fst (build_page json_load base filename lang_code w) with
    | Ok _ =>
        build_languages json_load rest base filename
          (snd (build_page json_load base filename lang_code w))
    | Raise e =>
        (Raise e, snd (build_page json_load base filename lang_code w))
    end.
Proof.
  cbn [build_languages].
  now destruct (build_page json_load base filename lang_code w) as [[u|e] w'].
Qed.

Lemma build_templates_cons (entry : str) (rest : list str) (w : world) :
  build_templates json_load (entry :: rest) base w
  = match fst (build_template json_load base entry w) with
    | Ok _ =>
        build_templates json_load rest base
          (snd (build_template json_load base entry w))
    | Raise e => (Raise e, snd (build_template json_load base entry w))
    end.
Proof.
  cbn [build_templates].
  now destruct (build_template json_load base entry w) as [[u|e] w'].
Qed.

(** The language loop leaves every file as it is that is not the file of one
    of its rounds. *)
Lemma build_languages_frame (filename path : str) :
  forall codes w,
    (forall c, In c codes -> path <> out_path c filename) ->
    (path <> root_path filename \/ ~ In DEFAULT_LANGUAGE codes) ->
    files (snd (build_languages json_load codes base filename w)) path
    = files w path.
Proof.
  induction codes as [|c codes IH]; intros w Ho Hr; [reflexivity|].
  rewrite build_languages_cons.
  assert (Hp : files (snd (build_page json_load base filename c w)) path
               = files w path).
  { apply build_page_frame; [apply Ho; now left|].
    destruct Hr as [Hr | Hr]; [now left|]. right. intros ->. apply Hr. now left. }
  destruct (fst (build_page json_load base filename c w)); [|exact Hp].
  rewrite IH; [exact Hp| |].
  - intros c' Hc'. apply Ho. now right.
  - destruct Hr as [Hr | Hr]; [now left|]. right. intros H. apply Hr. now right.
Qed.

Lemma build_languages_sources (filename : str) (codes : list str) (w : world) :
  (forall c, In c codes -> In c LANGUAGES) ->
  lacks slash filename = true ->
  agree_sources w (snd (build_languages json_load codes base filename w)).
Proof.
  intros Hc Hf path Hp. symmetry. apply build_languages_frame.
  - intros c Hin ->. rewrite out_not_source in Hp by now apply Hc.
    discriminate.
  - left. intros ->. rewrite root_not_source in Hp by exact Hf. discriminate.
Qed.

Lemma run_alike_step (w1 w2 u1 u2 v1 v2 : world) (line : str)
    (r1 r2 : result unit * world) :
  stdout v1 = stdout u1 ++ [line] -> stdout v2 = stdout u2 ++ [line] ->
  run_alike w1 w2 v1 v2 r1 r2 -> run_alike w1 w2 u1 u2 r1 r2.
Proof.
  intros H1 H2 (Hf & Hs & lines & L1 & L2). split; [exact Hf|].
  split; [exact Hs|]. exists (line :: lines).
  rewrite L1, L2, H1, H2, <- !app_assoc. now split.
Qed.

Lemma build_languages_refuses (filename : str) :
  forall codes w,
    refuses (snd (build_languages json_load codes base filename w)) = refuses w.
Proof.
  induction codes as [|c codes IH]; intros w; [reflexivity|].
  rewrite build_languages_cons.
  destruct (fst (build_page json_load base filename c w));
    [rewrite IH|]; apply build_page_refuses.
Qed.

(** Two language loops that read the same, in worlds that refuse the same
    paths, end the same way. *)
Lemma build_languages_twin (filename : str) (w1 w2 : world) :
  agree_sources w1 w2 ->
  forall codes u1 u2,
    agree_outputs u1 u2 -> same_writes w1 w2 u1 u2 ->
    run_alike w1 w2 u1 u2
      (build_languages json_load codes base filename u1)
      (build_languages json_load codes base filename u2).
Proof.
  intros Ha. induction codes as [|c codes IH]; intros u1 u2 Hr Hs.
  - split; [reflexivity|]. split; [exact Hs|]. exists [].
    now rewrite !app_nil_r.
  - rewrite !build_languages_cons.
    destruct (build_page_twin json_load base filename c w1 w2 u1 u2 Ha Hr Hs)
      as [Hf Hs'].
    assert (P1 := build_page_stdout json_load base filename c u1).
    assert (P2 := build_page_stdout json_load base filename c u2).
    rewrite <- Hf.
    destruct (fst (build_page json_load base filename c u1)) as [u|e].
    + apply (run_alike_step _ _ _ _ _ _ _ _ _ P1 P2). apply IH; [|exact Hs'].
      intros path. now rewrite !build_page_refuses.
    + split; [reflexivity|]. split; [exact Hs'|].
      exists [lit "  " ++ c]. now split.
Qed.

(** A language loop that ends without exception has printed one line for
    each code. *)
Lemma build_languages_stdout (filename : str) :
  forall codes w,
    fst (build_languages json_load codes base filename w) = Ok tt ->
    stdout (snd (build_languages json_load codes base filename w))
    = stdout w ++ map (fun c => lit "  " ++ c) codes.
Proof.
  induction codes as [|c codes IH]; intros w H.
  - cbn. now rewrite app_nil_r.
  - rewrite build_languages_cons in H |- *.
    destruct (fst (build_page json_load base filename c w)) as [u|e];
      [|discriminate].
    rewrite (IH _ H), build_page_stdout, <- app_assoc. reflexivity.
Qed.

(** Whatever a language loop comes to, its lines are a beginning of the
    lines of its codes. *)
Lemma build_languages_lines (filename : str) :
  forall codes w,
    exists lines rest,
      stdout (snd (build_languages json_load codes base filename w))
      = stdout w ++ lines
      /\ map (fun c => lit "  " ++ c) codes = lines ++ rest.
Proof.
  induction codes as [|c codes IH]; intros w.
  - exists [], []. cbn. now rewrite app_nil_r.
  - rewrite build_languages_cons.
    assert (P := build_page_stdout json_load base filename c w).
    destruct (fst (build_page json_load base filename c w)).
    + destruct (IH (snd (build_page json_load base filename c w)))
        as (lines & rest & H1 & H2).
      exists ((lit "  " ++ c) :: lines), rest.
      cbn [map]. rewrite H1, P, H2, <- app_assoc. now split.
    + exists [lit "  " ++ c], (map (fun c => lit "  " ++ c) codes).
      now split.
Qed.




(** Loops take up where they stopped: the rounds behind an exception are
    not run. *)
Lemma build_languages_app (filename : str) (codes2 : list str) :
  forall codes1 w,
    build_languages json_load (codes1 ++ codes2) base filename w
    = match fst (build_languages json_load codes1 base filename w) with
      | Ok _ =>
          build_languages json_load codes2 base filename
            (snd (build_languages json_load codes1 base filename w))
      | Raise e =>
          (Raise e, snd (build_languages json_load codes1 base filename w))
      end.
Proof.
  induction codes1 as [|c codes1 IH]; intros w; [reflexivity|].
  cbn [app]. rewrite !build_languages_cons.
  destruct (fst (build_page json_load base filename c w)); [apply IH|].
  reflexivity.
Qed.


End Loops.

(** * The whole script *)

Section Script.

Variable json_load : str -> option dict.

Lemma build_template_sources (base entry : str) (w : world) :
  lacks slash entry = true ->
  agree_sources w (snd (build_template json_load base entry w)).
Proof.
  intros L. unfold build_template.
  destruct (page_name entry) as [filename|] eqn:E; [|now intros path _].
  intros path Hp.
  rewrite <- (build_languages_sources json_load base filename LANGUAGES
                (print filename w) (fun c H => H)
                (page_name_lacks slash entry filename E L) path Hp).
  reflexivity.
Qed.

Lemma build_template_refuses (base entry : str) (w : world) :
  refuses (snd (build_template json_load base entry w)) = refuses w.
Proof.
  unfold build_template. destruct (page_name entry); [|reflexivity].
  now rewrite build_languages_refuses.
Qed.


Lemma build_template_twin (base entry : str) (w1 w2 u1 u2 : world) :
  agree_sources w1 w2 -> agree_outputs u1 u2 -> same_writes w1 w2 u1 u2 ->
  run_alike w1 w2 u1 u2
    (build_template json_load base entry u1)
    (build_template json_load base entry u2).
Proof.
  intros Ha Hr Hs. unfold build_template.
  destruct (page_name entry) as [filename|].
  - apply (run_alike_step w1 w2 u1 u2 (print filename u1) (print filename u2)
             filename); [reflexivity|reflexivity|].
    now apply build_languages_twin.
  - split; [reflexivity|]. split; [exact Hs|]. exists [].
    now rewrite !app_nil_r.
Qed.

Lemma build_templates_sources (base : str) :
  forall listing w,
    forallb (lacks slash) listing = true ->
    agree_sources w (snd (build_templates json_load listing base w)).
Proof.
  induction listing as [|entry listing IH]; intros w L; [now intros path _|].
  cbn [forallb] in L. apply andb_prop in L as [Le L].
  rewrite build_templates_cons. intros path Hp.
  assert (H1 := build_template_sources base entry w Le path Hp).
  destruct (fst (build_template json_load base entry w)); [|exact H1].
  rewrite H1. now apply IH.
Qed.

Lemma run_alike_trans (w1 w2 u1 u2 : world) (r1 r2 s1 s2 : result unit * world) :
  run_alike w1 w2 u1 u2 r1 r2 ->
  run_alike w1 w2 (snd r1) (snd r2) s1 s2 ->
  run_alike w1 w2 u1 u2 s1 s2.
Proof.
  intros (_ & _ & l1 & A1 & A2) (Hf & Hs & l2 & B1 & B2).
  split; [exact Hf|]. split; [exact Hs|]. exists (l1 ++ l2).
  rewrite B1, B2, A1, A2, <- !app_assoc. now split.
Qed.

Lemma build_templates_twin (base : str) (w1 w2 : world) :
  agree_sources w1 w2 ->
  forall listing u1 u2,
    agree_outputs u1 u2 -> same_writes w1 w2 u1 u2 ->
    run_alike w1 w2 u1 u2
      (build_templates json_load listing base u1)
      (build_templates json_load listing base u2).
Proof.
  intros Ha. induction listing as [|entry listing IH]; intros u1 u2 Hr Hs.
  - split; [reflexivity|]. split; [exact Hs|]. exists [].
    now rewrite !app_nil_r.
  - rewrite !build_templates_cons.
    assert (T := build_template_twin base entry w1 w2 u1 u2 Ha Hr Hs).
    destruct T as (Hf & Hs' & Hl). rewrite <- Hf.
    destruct (fst (build_template json_load base entry u1)) as [u|e] eqn:E.
    + apply (run_alike_trans w1 w2 u1 u2
               (build_template json_load base entry u1)
               (build_template json_load base entry u2)).
      * split; [now rewrite <- Hf, E|]. now split.
      * apply IH; [|exact Hs'].
        intros path. now rewrite !build_template_refuses.
    + split; [reflexivity|]. now split.
Qed.

Lemma main_unfold (listing : list str) (w : world) :
  main json_load listing w
  = match files w (lit "../../res/templates/base.html") with
    | None =>
        (Raise (FileNotFoundError (lit "../../res/templates/base.html")), w)
    | Some base =>
        match fst (build_templates json_load listing base w) with
        | Ok _ =>
            (Ok tt,
             print (lit "fini!")
               (snd (build_templates json_load listing base w)))
        | Raise e => (Raise e, snd (build_templates json_load listing base w))
        end
    end.
Proof.
  unfold main, read.
  destruct (files w (lit "../../res/templates/base.html")) as [base|];
    [|reflexivity].
  now destruct (build_templates json_load listing base w) as [[u|e] w'].
Qed.

Lemma main_sources (listing : list str) (w : world) :
  forallb (lacks slash) listing = true ->
  agree_sources w (snd (main json_load listing w)).
Proof.
  intros L path Hp. rewrite main_unfold.
  destruct (files w (lit "../../res/templates/base.html")) as [base|];
    [|reflexivity].
  assert (H := build_templates_sources base listing w L path Hp).
  now destruct (fst (build_templates json_load listing base w)).
Qed.


Lemma main_twin (listing : list str) (w1 w2 : world) :
  agree_sources w1 w2 -> agree_outputs w1 w2 ->
  run_alike w1 w2 w1 w2 (main json_load listing w1) (main json_load listing w2).
Proof.
  intros Ha Hr. rewrite !main_unfold.
  assert (Hs : same_writes w1 w2 w1 w2) by (intros path; now left).
  rewrite <- (Ha (lit "../../res/templates/base.html") eq_refl).
  destruct (files w1 (lit "../../res/templates/base.html")) as [base|].
  - destruct (build_templates_twin base w1 w2 Ha listing w1 w2 Hr Hs)
      as (Hf & Hs' & lines & L1 & L2).
    rewrite <- Hf.
    destruct (fst (build_templates json_load listing base w1)).
    + split; [reflexivity|]. split; [exact Hs'|].
      exists (lines ++ [lit "fini!"]). cbn [snd print stdout].
      now rewrite L1, L2, !app_assoc.
    + split; [reflexivity|]. split; [exact Hs'|]. now exists lines.
  - split; [reflexivity|]. split; [exact Hs|]. exists [].
    now rewrite !app_nil_r.
Qed.

End Script.

(** * The pages of a build *)

Section Pages.

Variable json_load : str -> option dict.
Variable base : str.


Lemma page_names_cons (entry : str) (listing : list str) :
  page_names (entry :: listing)
  = match page_name entry with
    | Some filename => filename :: page_names listing
    | None => page_names listing
    end.
Proof.
  unfold page_names. cbn [flat_map]. now destruct (page_name entry).
Qed.








(** The entries that the loop passes over can as well be left out. *)
Lemma build_templates_filter :
  forall listing w,
    build_templates json_load listing base w
    = build_templates json_load
        (filter (fun entry => match page_name entry with
                              | Some _ => true
                              | None => false
                              end) listing)
        base w.
Proof.
  induction listing as [|entry listing IH]; intros w; [reflexivity|].
  cbn [filter]. destruct (page_name entry) as [filename|] eqn:E.
  - rewrite !build_templates_cons.
    destruct (fst (build_template json_load base entry w)); [apply IH|].
    reflexivity.
  - rewrite build_templates_cons. unfold build_template. rewrite E.
    cbn [fst snd]. apply IH.
Qed.

(** The lines of a loop over the listing that ends without exception. *)
Lemma build_templates_stdout :
  forall listing w,
    fst (build_templates json_load listing base w) = Ok tt ->
    stdout (snd (build_templates json_load listing base w))
    = stdout w ++ progress (page_names listing).
Proof.
  induction listing as [|entry listing IH]; intros w H.
  - cbn. now rewrite app_nil_r.
  - rewrite build_templates_cons in H |- *. rewrite page_names_cons.
    destruct (fst (build_template json_load base entry w)) as [[]|e] eqn:E1;
      [|discriminate].
    rewrite (IH _ H). unfold build_template in E1 |- *.
    destruct (page_name entry) as [filename|]; [|reflexivity].
    rewrite (build_languages_stdout json_load base filename LANGUAGES _ E1).
    cbn [print stdout progress flat_map]. now rewrite <- !app_assoc.
Qed.

(** Whatever the loop over the listing comes to, its lines are a beginning
    of the lines of its pages. *)
Lemma build_templates_lines :
  forall listing w,
    exists lines rest,
      stdout (snd (build_templates json_load listing base w))
      = stdout w ++ lines
      /\ progress (page_names listing) = lines ++ rest.
Proof.
  induction listing as [|entry listing IH]; intros w.
  - exists [], []. cbn. now rewrite app_nil_r.
  - rewrite build_templates_cons, page_names_cons.
    destruct (fst (build_template json_load base entry w)) as [[]|e] eqn:E1.
    + destruct (IH (snd (build_template json_load base entry w)))
        as (lines & rest & H1 & H2).
      unfold build_template in E1, H1 |- *.
      destruct (page_name entry) as [filename|];
        [|now exists lines, rest].
      rewrite (build_languages_stdout json_load base filename LANGUAGES _ E1)
        in H1.
      exists (filename :: map (fun c => lit "  " ++ c) LANGUAGES ++ lines), rest.
      split.
      * rewrite H1. cbn [print stdout]. now rewrite <- !app_assoc.
      * cbn [progress flat_map]. fold (progress (page_names listing)).
        rewrite H2. cbn [app]. now rewrite <- !app_assoc.
    + unfold build_template in E1 |- *.
      destruct (page_name entry) as [filename|]; [|discriminate E1].
      destruct (build_languages_lines json_load base filename LANGUAGES
                  (print filename w)) as (lines & rest & H1 & H2).
      exists (filename :: lines), (rest ++ progress (page_names listing)).
      cbn [snd]. split.
      * rewrite H1. cbn [print stdout]. now rewrite <- !app_assoc.
      * cbn [progress flat_map]. fold (progress (page_names listing)).
        rewrite H2. cbn [app]. now rewrite <- !app_assoc.
Qed.

End Pages.

(** * Properties of the script as a whole *)

(** X1.  The loop over the templates folder takes the entries [name.html]
    other than [base.html], names the page by what stands before [.html],
    and opens the listed entry itself as the template of this page; it
    passes over [base.html] and over every entry that does not end with
    [.html]. *)
Theorem template_entries :
  (forall entry filename,
      page_name entry = Some filename
      <-> entry = filename ++ lit ".html" /\ filename <> lit "base")
  /\ (forall entry,
         page_name entry = None
         <-> entry = lit "base.html" \/ endswith entry (lit ".html") = false)
  /\ (forall entry filename,
         page_name entry = Some filename ->
         template_path filename = lit "../../res/templates/" ++ entry).
Proof.
  split; [exact page_name_some|]. split; [exact page_name_none|].
  intros entry filename H. apply page_name_some in H as [-> _]. reflexivity.
Qed.

Lemma template_entries_witness :
  page_name (lit "a.b.html") = Some (lit "a.b")
  /\ page_name (lit "notes.txt") = None
  /\ template_path (lit "index") = lit "../../res/templates/" ++ lit "index.html".
Proof.
  split; [|split].
  - apply (proj2 (proj1 template_entries (lit "a.b.html") (lit "a.b"))).
    split; [reflexivity|discriminate].
  - apply (proj2 (proj1 (proj2 template_entries) (lit "notes.txt"))).
    right. reflexivity.
  - apply (proj2 (proj2 template_entries) (lit "index.html") (lit "index")).
    reflexivity.
Defined.

(** X2.  No two rounds write the same file: the files of two rounds in the
    language folders differ as soon as the language or the page differs, the
    copies at the root differ for different pages, and the copy at the root
    of a page whose name has no slash is no file of a language folder. *)
Theorem outputs_do_not_collide :
  (forall c c' f f',
      In c LANGUAGES -> In c' LANGUAGES ->
      out_path c f = out_path c' f' -> c = c' /\ f = f')
  /\ (forall f f', root_path f = root_path f' -> f = f')
  /\ (forall c f f', lacks slash f = true -> root_path f <> out_path c f').
Proof.
  split; [|split].
  - intros c c' f f' Hc Hc'.
    apply out_path_inj; now apply languages_lack_slash.
  - exact root_path_inj.
  - exact root_not_out.
Qed.

Lemma outputs_do_not_collide_witness :
  root_path (lit "index") <> out_path (lit "pd") (lit "index").
Proof.
  apply (proj2 (proj2 outputs_do_not_collide) (lit "pd") (lit "index")
           (lit "index")).
  reflexivity.
Defined.

(** X3.  One round of the language loop, for a page name of ordinary
    characters and dots.  It prints its line in any case, and what it
    raises is an exception of the script.  When the template or the
    language file is missing, the language file is no dictionary, or
    rendering raises, the round raises the same and no file has changed.
    Otherwise rendering has made a page, and the round goes on to save it:
    when the file of the language is refused, the round raises and no file
    has changed; when the page cannot be encoded, the round raises and
    leaves that file empty; when the language is the default one and the
    copy at the root is refused, the round raises with the file of the
    language written; in every other case the round returns, the file of
    the language holds the page, and so does the copy at the root when the
    language is the default one.  Every other file is as it was. *)
Theorem one_round_effect (json_load : str -> option dict)
    (base filename lang_code : str) (w : world) :
  in_fragment filename = true ->
  stdout (snd (build_page json_load base filename lang_code w))
  = stdout w ++ [lit "  " ++ lang_code]
  /\ fst (build_page json_load base filename lang_code w)
     <> Raise OutsideFragment
  /\ ((exists e,
         page_outcome json_load base filename lang_code w = Raise e
         /\ fst (build_page json_load base filename lang_code w) = Raise e
         /\ forall path,
             files (snd (build_page json_load base filename lang_code w)) path
             = files w path)
      \/ (exists content text lang page,
            files w (template_path filename) = Some content
            /\ files w (lang_path lang_code) = Some text
            /\ json_load text = Some lang
            /\ render base content filename lang = Ok page
            /\ ((refuses w (out_path lang_code filename) = true
                 /\ fst (build_page json_load base filename lang_code w)
                    = Raise (OSError (out_path lang_code filename))
                 /\ forall path,
                     files (snd (build_page json_load base filename
                                   lang_code w)) path
                     = files w path)
                \/ (refuses w (out_path lang_code filename) = false
                    /\ encodes page = false
                    /\ fst (build_page json_load base filename lang_code w)
                       = Raise (UnicodeEncodeError
                                  (out_path lang_code filename))
                    /\ forall path,
                        files (snd (build_page json_load base filename
                                      lang_code w)) path
                        = if str_eqb path (out_path lang_code filename)
                          then Some []
                          else files w path)
                \/ (refuses w (out_path lang_code filename) = false
                    /\ encodes page = true
                    /\ lang_code = DEFAULT_LANGUAGE
                    /\ refuses w (root_path filename) = true
                    /\ fst (build_page json_load base filename lang_code w)
                       = Raise (OSError (root_path filename))
                    /\ forall path,
                        files (snd (build_page json_load base filename
                                      lang_code w)) path
                        = if str_eqb path (out_path lang_code filename)
                          then Some page
                          else files w path)
                \/ (refuses w (out_path lang_code filename) = false
                    /\ encodes page = true
                    /\ (lang_code = DEFAULT_LANGUAGE ->
                        refuses w (root_path filename) = false)
                    /\ fst (build_page json_load base filename lang_code w)
                       = Ok tt
                    /\ forall path,
                        files (snd (build_page json_load base filename
                                      lang_code w)) path
                        = if str_eqb path (out_path lang_code filename)
                             || str_eqb lang_code DEFAULT_LANGUAGE
                                && str_eqb path (root_path filename)
                          then Some page
                          else files w path)))).
Proof.
  intros Hfrag. split; [apply build_page_stdout|].
  split; [now apply build_page_in_fragment|].
  destruct (page_outcome json_load base filename lang_code w) as [page|e] eqn:E.
  - right. apply page_outcome_ok in E as H.
    destruct H as (content & text & lang & Hc & Ht & Hj & Hr).
    exists content, text, lang, page. repeat (split; [assumption|]).
    destruct (refuses w (out_path lang_code filename)) eqn:Ro.
    { left. split; [reflexivity|]. split.
      - now rewrite build_page_status, E, Ro.
      - intros path. now rewrite build_page_files, E, Ro. }
    right. destruct (encodes page) eqn:En.
    2:{ left. split; [reflexivity|]. split; [reflexivity|]. split.
        - now rewrite build_page_status, E, Ro, En.
        - intros path. rewrite build_page_files, E, Ro, En. reflexivity. }
    right. destruct (str_eqb lang_code DEFAULT_LANGUAGE) eqn:Ed.
    + destruct (refuses w (root_path filename)) eqn:Rr.
      * left. split; [reflexivity|]. split; [reflexivity|].
        split; [now apply str_eqb_eq|]. split; [reflexivity|]. split.
        -- now rewrite build_page_status, E, Ro, En, Ed, Rr.
        -- intros path. rewrite build_page_files, E, Ro, En, Ed, Rr.
           reflexivity.
      * right. split; [reflexivity|]. split; [reflexivity|].
        split; [reflexivity|]. split.
        -- now rewrite build_page_status, E, Ro, En, Ed, Rr.
        -- intros path. rewrite build_page_files, E, Ro, En, Ed, Rr.
           cbn [andb negb].
           now destruct (str_eqb path (out_path lang_code filename)).
    + right. split; [reflexivity|]. split; [reflexivity|]. split.
      * intros Hd. apply str_eqb_eq in Hd. rewrite Hd in Ed. discriminate.
      * split; [now rewrite build_page_status, E, Ro, En, Ed|].
        intros path. rewrite build_page_files, E, Ro, En, Ed. cbn [andb].
        now destruct (str_eqb path (out_path lang_code filename)).
  - left. exists e. split; [reflexivity|]. split.
    + now rewrite build_page_status, E.
    + intros path. now rewrite build_page_files, E.
Qed.

Lemma one_round_effect_witness :
  stdout (snd (build_page end_to_end_json end_to_end_base (lit "index")
                 (lit "en") site_world))
  = stdout site_world ++ [lit "  " ++ lit "en"]
  /\ fst (build_page end_to_end_json end_to_end_base (lit "index") (lit "en")
            site_world)
     <> Raise OutsideFragment.
Proof.
  assert (H := one_round_effect end_to_end_json end_to_end_base (lit "index")
                 (lit "en") site_world eq_refl).
  exact (conj (proj1 H) (proj1 (proj2 H))).
Defined.



(** X5.  The script never writes under [../../res/]: whatever the run
    comes to, the base, the templates and the language files are as they
    were, the entries of the listing being names without slash. *)
Theorem sources_are_never_written (json_load : str -> option dict)
    (listing : list str) (w : world) (path : str) :
  forallb (lacks slash) listing = true ->
  source_path path = true ->
  files (snd (main json_load listing w)) path = files w path.
Proof.
  intros L Hp. symmetry. now apply main_sources.
Qed.

Lemma sources_are_never_written_witness :
  files (snd (main end_to_end_json
                [lit "base.html"; lit "index.html"; lit "notes.txt"]
                site_world))
        (template_path (lit "index"))
  = files site_world (template_path (lit "index")).
Proof.
  apply (sources_are_never_written end_to_end_json
           [lit "base.html"; lit "index.html"; lit "notes.txt"] site_world
           (template_path (lit "index")));
    reflexivity.
Defined.

(** X6.  A run depends on the files under [../../res/] and on the paths
    that refuse to be written, and on nothing else: two runs, on the same
    listing, in worlds that agree on both end the same way, print the same
    lines and write the same, so that every file is either untouched by
    both or the same after both.  What the other files hold, the files of
    an earlier build among them, has no part in it. *)
Theorem build_depends_on_sources_only (json_load : str -> option dict)
    (listing : list str) (w1 w2 : world) :
  agree_sources w1 w2 -> agree_outputs w1 w2 ->
  run_alike w1 w2 w1 w2
    (main json_load listing w1) (main json_load listing w2).
Proof. apply main_twin. Qed.

Lemma build_depends_on_sources_only_witness :
  run_alike site_world (put (lit "../../en/old.html") (lit "x") site_world)
    site_world (put (lit "../../en/old.html") (lit "x") site_world)
    (main end_to_end_json [lit "index.html"] site_world)
    (main end_to_end_json [lit "index.html"]
       (put (lit "../../en/old.html") (lit "x") site_world)).
Proof.
  apply (build_depends_on_sources_only end_to_end_json [lit "index.html"]
           site_world (put (lit "../../en/old.html") (lit "x") site_world)).
  - intros path Hp. cbn [put files].
    destruct (str_eqb path (lit "../../en/old.html")) eqn:E; [|reflexivity].
    apply str_eqb_eq in E. subst path. discriminate Hp.
  - intros path. reflexivity.
Defined.





(** X9.  The entries that the loop passes over have no effect: the run on a
    listing is the run on its entries [name.html] other than [base.html]. *)
Theorem skipped_entries_change_nothing (json_load : str -> option dict)
    (listing : list str) (w : world) :
  main json_load listing w
  = main json_load
      (filter (fun entry => match page_name entry with
                            | Some _ => true
                            | None => false
                            end) listing)
      w.
Proof.
  rewrite !main_unfold.
  destruct (files w (lit "../../res/templates/base.html")) as [base|];
    [|reflexivity].
  now rewrite <- build_templates_filter.
Qed.

(** X10.  Whatever a run comes to, the lines it prints are a beginning of
    these: for every page of the listing in its order, the page name and
    then one line per language, and [fini!] at the end.  A run without
    exception, on a listing whose page names are made of ordinary
    characters and dots, prints all of them. *)
Theorem progress_of_a_build (json_load : str -> option dict)
    (listing : list str) (w : world) :
  (exists lines rest,
      stdout (snd (main json_load listing w)) = stdout w ++ lines
      /\ progress (page_names listing) ++ [lit "fini!"] = lines ++ rest)
  /\ (forallb in_fragment (page_names listing) = true ->
      fst (main json_load listing w) = Ok tt ->
      stdout (snd (main json_load listing w))
      = stdout w ++ progress (page_names listing) ++ [lit "fini!"]).
Proof.
  rewrite main_unfold.
  destruct (files w (lit "../../res/templates/base.html")) as [base|].
  2:{ split; [|discriminate].
      exists [], (progress (page_names listing) ++ [lit "fini!"]).
      cbn [snd app]. now rewrite app_nil_r. }
  destruct (fst (build_templates json_load listing base w)) as [[]|e] eqn:E.
  - assert (H : stdout (snd (Ok tt,
                              print (lit "fini!")
                                (snd (build_templates json_load listing base w))))
                = stdout w ++ progress (page_names listing) ++ [lit "fini!"]).
    { cbn [snd print stdout].
      now rewrite (build_templates_stdout json_load base listing w E),
        app_assoc. }
    split; [|intros _ _; exact H].
    exists (progress (page_names listing) ++ [lit "fini!"]), [].
    now rewrite app_nil_r.
  - split; [|discriminate].
    destruct (build_templates_lines json_load base listing w)
      as (lines & rest & H1 & H2).
    exists lines, (rest ++ [lit "fini!"]). cbn [snd].
    split; [exact H1|]. now rewrite H2, <- app_assoc.
Qed.

Lemma progress_of_a_build_witness :
  stdout (snd (main end_to_end_json
                 [lit "base.html"; lit "index.html"; lit "notes.txt"]
                 site_world))
  = [lit "index"; lit "  en"; lit "  es"; lit "  jp"; lit "  pd"; lit "fini!"].
Proof.
  apply (proj2 (progress_of_a_build end_to_end_json
                  [lit "base.html"; lit "index.html"; lit "notes.txt"]
                  site_world)).
  - reflexivity.
  - vm_compute. reflexivity.
Defined.

(** * Properties of the text pipeline *)

Section Pipeline.

Lemma quiet_tail (c : char) (s : str) : quiet (c :: s) = true -> quiet s = true.
Proof. cbn [quiet]. intros H. now apply andb_prop in H as [_ H]. Qed.

(** A quiet text holds no token that starts with a character of keys. *)
Lemma quiet_no_occurs (x : char) (r : str) :
  key_char x = true ->
  forall s, quiet s = true -> occurs (lbrace :: x :: r) s = false.
Proof.
  intros Hx. induction s as [|c s IH]; intros H; [reflexivity|].
  cbn [occurs]. rewrite (IH (quiet_tail _ _ H)), orb_false_r.
  cbn [startswith]. destruct (c =? lbrace)%N eqn:Ec; [|reflexivity].
  cbn [quiet] in H. rewrite Ec in H. apply andb_prop in H as [H _].
  destruct s as [|y s]; [reflexivity|]. cbn [startswith andb].
  destruct (y =? x)%N eqn:Ey; [|reflexivity].
  apply N.eqb_eq in Ey. subst y. now rewrite Hx in H.
Qed.

Lemma quiet_keys (lang : dict) :
  forallb (fun kv => is_key (fst kv)) lang = true ->
  forall page, quiet page = true -> replace_basic_keys page lang = page.
Proof.
  unfold replace_basic_keys.
  induction lang as [|[key value] lang IH]; intros H page Hq; [reflexivity|].
  cbn [forallb fst] in H. apply andb_prop in H as [Hk H].
  cbn [fold_left fst snd]. destruct key as [|x key]; [discriminate|].
  cbn [is_key forallb] in Hk. apply andb_prop in Hk as [Hx _].
  change (token (x :: key)) with (lbrace :: x :: key ++ lit "}").
  rewrite (replace_absent lbrace (x :: key ++ lit "}") value page
             (quiet_no_occurs x _ Hx page Hq)).
  now apply IH.
Qed.

(** In a quiet text no pattern matches that wants a character of keys
    behind the opening brace. *)
Lemma quiet_no_match (set : char -> bool) (q : quant) (cap : bool)
    (p : pattern) :
  q <> Star -> (forall c, set c = true -> key_char c = true) ->
  forall s a b, quiet s = true -> s = a ++ b ->
                match_here (chr lbrace :: Atom set q cap :: p) b = None.
Proof.
  intros Hq Hset s a b Hs ->.
  assert (Hb : quiet b = true).
  { clear -Hs. induction a as [|c a IH]; [exact Hs|].
    apply IH. now apply (quiet_tail c). }
  rewrite match_chr. destruct b as [|c b]; [reflexivity|].
  destruct (lbrace =? c)%N eqn:Ec; [|reflexivity].
  cbn [quiet] in Hb. rewrite N.eqb_sym, Ec in Hb.
  apply andb_prop in Hb as [Hb _].
  destruct q; [|contradiction|]; cbn [match_here times accepts];
    destruct b as [|y b]; try reflexivity;
    destruct (set y) eqn:Ey; try reflexivity;
    now rewrite (Hset y Ey) in Hb.
Qed.

Lemma quiet_remaining_keys (page : str) :
  quiet page = true -> remaining_keys page = None.
Proof.
  intros H. apply search_none_intro. intros a b Hab.
  apply (quiet_no_match key_char Plus true [chr rbrace]) with (s := page) (a := a);
    [discriminate|auto|exact H|exact Hab].
Qed.

Lemma quiet_resolve_ifs (filename page : str) :
  in_fragment filename = true -> quiet page = true ->
  resolve_ifs filename page = Ok page.
Proof.
  intros Hf Hq. destruct (name_re_total _ Hf) as [name Hn].
  unfold resolve_ifs, keep_re. rewrite Hn. f_equal.
  assert (Hone : forall p repl,
             sub (chr lbrace :: Atom (N.eqb 73) One false :: p) repl page
             = page).
  { intros p repl. apply sub_no_match. intros a b Hab.
    apply (quiet_no_match (N.eqb 73) One false p) with (s := page) (a := a);
      [discriminate| |exact Hq|exact Hab].
    intros c Hc. apply N.eqb_eq in Hc. now subst c. }
  change (chars (lit "{If") ++ [chr dq] ++ name ++ [chr dq]
          ++ [Atom not_rbrace Star true] ++ chars (lit "}"))
    with (chr lbrace :: Atom (N.eqb 73) One false
          :: chr 102%N :: chr dq :: name ++ [chr dq]
          ++ [Atom not_rbrace Star true] ++ chars (lit "}")).
  rewrite Hone. exact (Hone _ _).
Qed.

End Pipeline.

(** X11.  The key error is raised for a token only: when rendering raises
    it, the text with content, page name and keys put in holds a token of
    key characters, and the message names its key; and when the text holds
    no such token, rendering is the resolution of the tags of this text. *)
Theorem key_error_only_for_a_token (base content filename : str)
    (lang : dict) :
  (forall msg,
      render base content filename lang = Raise (KeyError msg) ->
      exists pre key suf,
        is_key key = true
        /\ substituted base content filename lang = pre ++ token key ++ suf
        /\ msg = no_jana_cabe key)
  /\ ((forall pre key suf,
          is_key key = true ->
          substituted base content filename lang <> pre ++ token key ++ suf) ->
      render base content filename lang
      = resolve_ifs filename (substituted base content filename lang)).
Proof.
  unfold render, remaining_keys. split.
  - intros msg H.
    destruct (search remaining_keys_re (substituted base content filename lang))
      as [[[before key] rest]|] eqn:E.
    + injection H as <-. apply search_some in E as (tail & Ht & Hm & _).
      apply key_match_inv in Hm as [-> Hk].
      now exists before, key, rest.
    + unfold resolve_ifs in H. destruct (keep_re filename); discriminate.
  - intros Hno.
    destruct (search remaining_keys_re (substituted base content filename lang))
      as [[[before key] rest]|] eqn:E; [|reflexivity].
    exfalso. apply search_some in E as (tail & Ht & Hm & _).
    apply key_match_inv in Hm as [-> Hk]. exact (Hno before key rest Hk Ht).
Qed.

Lemma key_error_only_for_a_token_witness :
  exists pre key suf,
    is_key key = true
    /\ substituted end_to_end_base end_to_end_content (lit "index") []
       = pre ++ token key ++ suf
    /\ no_jana_cabe (lit "greeting") = no_jana_cabe key.
Proof.
  apply (proj1 (key_error_only_for_a_token end_to_end_base end_to_end_content
                  (lit "index") [])
           (no_jana_cabe (lit "greeting"))).
  vm_compute. reflexivity.
Defined.

(** X12.  A text that gives the pipeline nothing to do comes out as it went
    in: when the base with the content put in has no opening brace followed
    by a character of keys, the keys of the dictionary are keys, and the
    page name is of ordinary characters and dots, rendering returns this
    text, whatever the page name and the values of the dictionary. *)
Theorem quiet_text_passes (base content filename : str) (lang : dict) :
  quiet (insert_content base content) = true ->
  forallb (fun kv => is_key (fst kv)) lang = true ->
  in_fragment filename = true ->
  render base content filename lang = Ok (insert_content base content).
Proof.
  intros Hq Hk Hf.
  assert (Hs : substituted base content filename lang
               = insert_content base content).
  { unfold substituted, replace_special_key.
    change (lit "{.name}") with (lbrace :: lit ".name}").
    rewrite (replace_absent lbrace (lit ".name}") filename _
               (quiet_no_occurs 46%N (lit "name}") eq_refl _ Hq)).
    now apply quiet_keys. }
  unfold render. rewrite Hs, (quiet_remaining_keys _ Hq).
  now apply quiet_resolve_ifs.
Qed.

Lemma quiet_text_passes_witness :
  render (lit "<style>p { color: red }</style>{Content}")
    (lit "<p>{ }</p>") (lit "a.b") [(lit "greeting", lit "{x}")]
  = Ok (lit "<style>p { color: red }</style><p>{ }</p>").
Proof.
  apply (quiet_text_passes (lit "<style>p { color: red }</style>{Content}")
           (lit "<p>{ }</p>") (lit "a.b") [(lit "greeting", lit "{x}")]);
    reflexivity.
Defined.

(** X13.  A base without the placeholder [{Content}] makes every page the
    same: the content of the page is not put in anywhere, and rendering
    returns, or raises, what it does for any other content. *)
Theorem base_without_marker_drops_content (base filename : str) (lang : dict)
    (content content' : str) :
  occurs (lit "{Content}") base = false ->
  render base content filename lang = render base content' filename lang.
Proof.
  intros H. unfold render, substituted, insert_content.
  change (lit "{Content}") with (lbrace :: lit "Content}") in *.
  now rewrite !(replace_absent lbrace (lit "Content}") _ base H).
Qed.

Lemma base_without_marker_drops_content_witness :
  render (lit "<html>{content}</html>") (lit "<p>one</p>") (lit "index")
         [(lit "content", lit "x")]
  = render (lit "<html>{content}</html>") (lit "<p>two</p>") (lit "index")
           [(lit "content", lit "x")].
Proof.
  apply (base_without_marker_drops_content (lit "<html>{content}</html>")
           (lit "index") [(lit "content", lit "x")]
           (lit "<p>one</p>") (lit "<p>two</p>")).
  reflexivity.
Defined.

(** * Pages of plain text and tags *)

Section WholePage.

Lemma startswith_more (p x y : str) :
  startswith x p = true -> startswith (x ++ y) p = true.
Proof.
  intros H. apply startswith_inv in H as [r ->].
  rewrite <- app_assoc. apply startswith_app.
Qed.

Lemma tame_tail (c : char) (s : str) : tame (c :: s) = true -> tame s = true.
Proof. cbn [tame]. intros H. now apply andb_prop in H as [_ H]. Qed.

Lemma tame_suffix (a b : str) : tame (a ++ b) = true -> tame b = true.
Proof.
  induction a as [|c a IH]; [easy|]. intros H. apply IH.
  now apply (tame_tail c).
Qed.

(** In a tame text the pattern of the check matches nowhere. *)
Lemma tame_remaining_keys (page : str) :
  tame page = true -> remaining_keys page = None.
Proof.
  intros H. apply search_none_intro. intros a b ->.
  apply tame_suffix in H. destruct b as [|c b]; [reflexivity|].
  destruct (N.eq_dec c lbrace) as [-> | Hc];
    [|now apply key_match_needs_brace].
  cbn [tame] in H. rewrite N.eqb_refl in H. apply andb_prop in H as [H _].
  destruct b as [|x b].
  - reflexivity.
  - apply orb_prop in H as [H | H].
    + change remaining_keys_re
        with (chr lbrace :: Atom key_char Plus true :: [chr rbrace]).
      rewrite match_chr, N.eqb_refl, match_plus.
      apply negb_true_iff in H. now rewrite H.
    + apply startswith_inv in H as [r ->].
      change ((lit "If" ++ [dq]) ++ r) with (lit "If" ++ dq :: r).
      apply opener_no_key.
Qed.

Lemma tame_app (b : str) :
  tame b = true ->
  forall a, tame a = true -> (forall a', a <> a' ++ [lbrace]) ->
            tame (a ++ b) = true.
Proof.
  intros Hb. induction a as [|c a IH]; intros Ha Hend; [exact Hb|].
  cbn [app tame]. cbn [tame] in Ha. apply andb_prop in Ha as [Hc Ha].
  rewrite IH; [| exact Ha |].
  - rewrite andb_true_r. destruct (c =? lbrace)%N eqn:Ec; [|reflexivity].
    apply N.eqb_eq in Ec. subst c. destruct a as [|x a].
    + exfalso. now apply (Hend []).
    + cbn [app]. apply orb_prop in Hc as [Hc | Hc]; [now rewrite Hc|].
      change (x :: a ++ b) with ((x :: a) ++ b).
      rewrite (startswith_more _ _ b Hc). apply orb_true_r.
  - intros a' ->. now apply (Hend (c :: a')).
Qed.

Lemma lacks_tame (s : str) : lacks lbrace s = true -> tame s = true.
Proof.
  induction s as [|c s IH]; [reflexivity|]. rewrite lacks_cons. intros H.
  apply andb_prop in H as [Hc H]. cbn [tame].
  apply negb_true_iff in Hc. now rewrite Hc, IH.
Qed.

Lemma quiet_tame (s : str) : quiet s = true -> tame s = true.
Proof.
  induction s as [|c s IH]; [reflexivity|]. cbn [quiet tame]. intros H.
  apply andb_prop in H as [Hc H]. rewrite (IH H), andb_true_r.
  destruct (c =? lbrace)%N; [|reflexivity].
  destruct s as [|x s]; [reflexivity|]. now rewrite Hc.
Qed.

Lemma calm_end (s : str) : calm (s ++ [lbrace]) = false.
Proof.
  induction s as [|c s IH]; [reflexivity|].
  cbn [app calm]. rewrite IH. apply andb_false_r.
Qed.

Lemma page_pieces_tame (ps : list piece) :
  forallb page_piece ps = true -> tame (flatten ps) = true.
Proof.
  induction ps as [|p ps IH]; [reflexivity|].
  cbn [forallb flatten flat_map]. intros H. apply andb_prop in H as [Hp H].
  apply tame_app; [now apply IH| |].
  - destruct p as [text|name body]; cbn [page_piece piece_text] in *.
    + apply andb_prop in Hp as [Hq _]. now apply quiet_tame.
    + unfold well_formed_tag in Hp.
      apply andb_prop in Hp as [Hp Hrb]. apply andb_prop in Hp as [Hp Hlb].
      apply andb_prop in Hp as [Hp Hr]. apply andb_prop in Hp as [Hq Hl].
      rewrite <- (app_nil_r (if_tag name body)), if_tag_app.
      cbn [lit list_ascii_of_string map app tame].
      change (N_of_ascii "I") with 73%N. change (N_of_ascii "f") with 102%N.
      rewrite N.eqb_refl. cbn [startswith]. rewrite !N.eqb_refl.
      cbn [andb orb negb].
      change (tame (dq :: name ++ dq :: body ++ [rbrace]) = true).
      apply lacks_tame.
      now rewrite lacks_cons, lacks_app, lacks_cons, lacks_app, Hl, Hlb.
  - destruct p as [text|name body]; cbn [page_piece piece_text] in *.
    + apply andb_prop in Hp as [_ Hc]. intros a' ->.
      now rewrite calm_end in Hc.
    + intros a' Heq. unfold if_tag in Heq.
      rewrite !app_assoc in Heq. apply app_inj_tail in Heq as [_ Heq].
      discriminate Heq.
Qed.

Lemma page_pieces_well_formed (ps : list piece) :
  forallb page_piece ps = true -> well_formed ps = true.
Proof.
  induction ps as [|p ps IH]; [reflexivity|].
  cbn [forallb well_formed]. intros H. apply andb_prop in H as [Hp H].
  fold (well_formed ps). rewrite (IH H), andb_true_r.
  destruct p as [text|name body]; cbn [page_piece well_formed_piece] in *;
    [|exact Hp].
  now apply andb_prop in Hp as [_ Hc].
Qed.

End WholePage.

(** X14.  The whole pipeline on an ordinary page: when the text with
    content, page name and keys put in is made of well-formed tags and of
    plain text whose opening braces have a character behind them that is no
    character of keys, and the page name stands for itself in a pattern,
    rendering raises nothing and returns the plain text with the bodies of
    the tags of this page, the other tags being gone. *)
Theorem ordinary_page_renders (base content filename : str) (lang : dict)
    (ps : list piece) :
  literal_name filename = true ->
  lacks dq filename = true ->
  forallb page_piece ps = true ->
  substituted base content filename lang = flatten ps ->
  render base content filename lang = Ok (resolved filename ps).
Proof.
  intros Hl Hq Hp Hs. unfold render.
  rewrite Hs, (tame_remaining_keys _ (page_pieces_tame ps Hp)).
  unfold resolve_ifs. destruct (keep_re filename) as [keep|] eqn:Hk.
  - f_equal. apply two_passes_by_name; try assumption.
    now apply page_pieces_well_formed.
  - unfold keep_re in Hk. now rewrite (name_re_literal _ Hl) in Hk.
Qed.

Lemma ordinary_page_renders_witness :
  render (lit "<style>p { color: red }</style>{Content}")
    (lit "<h1>{greeting}, {.name}!</h1>"
     ++ if_tag (lit "index") (lit "<b>{greeting}</b>")
     ++ if_tag (lit "about") (lit "<i>{greeting}</i>"))
    (lit "index") [(lit "greeting", lit "Hello")]
  = Ok (lit "<style>p { color: red }</style><h1>Hello, index!</h1><b>Hello</b>").
Proof.
  apply (ordinary_page_renders
           (lit "<style>p { color: red }</style>{Content}")
           (lit "<h1>{greeting}, {.name}!</h1>"
            ++ if_tag (lit "index") (lit "<b>{greeting}</b>")
            ++ if_tag (lit "about") (lit "<i>{greeting}</i>"))
           (lit "index") [(lit "greeting", lit "Hello")]
           [Plain (lit "<style>p { color: red }</style><h1>Hello, index!</h1>");
            Tag (lit "index") (lit "<b>Hello</b>");
            Tag (lit "about") (lit "<i>Hello</i>")]);
    reflexivity.
Defined.
